(** * Sentinal-Net: the RWPV consensus core

    A shallow embedding of [backend/consensus/voting.py],
    [backend/shared/utils.py] (compute_weighted_vote),
    [backend/consensus/engine.py] (ConsensusEngine) and the exported names of
    [backend/shared/exceptions_v2.py].

    Modelling choices:
    - Python floats are modelled as exact rationals [Q]; the claims about sums
      hold "within floating-point epsilon", which exact arithmetic idealises.
    - A Python dict is an association list in insertion order: iteration
      follows the list, assigning to an existing key keeps its position,
      assigning to a new key appends it.
    - Raised exceptions are the constructors of [exn]; a method that mutates
      [self] before raising returns the mutated state together with the
      exception, as the Python object keeps those mutations. *)

From Stdlib Require Import QArith Qminmax ZArith List String Bool Lia.
From Stdlib Require Import Sorting.Sorted Sorting.Permutation.
Import ListNotations.
Open Scope Q_scope.

(** ** Exceptions and results *)

Inductive exn :=
| ConsensusError      (* backend.shared.exceptions_v2.ConsensusError *)
| KeyError
| ValueError          (* max() arg is an empty sequence *)
| TypeError
| ImportError
| NonFiniteWeights.   (* not raised by Python: see update_weights_from_feedback *)

Inductive result (A : Type) :=
| Ok (a : A)
| Err (e : exn).
Arguments Ok {A} a.
Arguments Err {A} e.

(** ** Python dicts as association lists *)

Definition agent := string.
Definition label := Z.

Fixpoint lookup {V} (k : string) (d : list (string * V)) : option V :=
  match d with
  | [] => None
  | (k', v) :: d' => if String.eqb k k' then Some v else lookup k d'
  end.

(** [d[k] = v] for a key already present: the value is replaced in place. *)
Fixpoint update {V} (k : string) (v : V) (d : list (string * V))
  : list (string * V) :=
  match d with
  | [] => []
  | (k', v') :: d' =>
      if String.eqb k k' then (k', v) :: d' else (k', v') :: update k v d'
  end.

Definition mem (k : string) (ks : list string) : bool :=
  existsb (String.eqb k) ks.

(** [set(d1.keys()) != set(d2.keys())] *)
Definition same_key_set (ks1 ks2 : list string) : bool :=
  forallb (fun k => mem k ks2) ks1 && forallb (fun k => mem k ks1) ks2.

(** Python's [sum] over floats. *)
Fixpoint qsum (l : list Q) : Q :=
  match l with
  | [] => 0
  | x :: l' => x + qsum l'
  end.

(** [numpy.clip(x, lo, hi)] = [minimum(maximum(x, lo), hi)]. *)
Definition clip (x lo hi : Q) : Q := Qmin (Qmax x lo) hi.

(** Python's [max(d, key=d.get)] over an int-keyed dict: the first key in
    iteration order whose value is maximal (a later key replaces the current
    best only when its value is strictly greater). *)
Fixpoint argmax_from (best : label) (bv : Q) (d : list (label * Q)) : label :=
  match d with
  | [] => best
  | (k, v) :: d' =>
      if Qle_bool v bv then argmax_from best bv d' else argmax_from k v d'
  end.

Definition py_max_key (d : list (label * Q)) : result label :=
  match d with
  | [] => Err ValueError
  | (k, v) :: d' => Ok (argmax_from k v d')
  end.

Fixpoint zlookup (k : label) (d : list (label * Q)) : option Q :=
  match d with
  | [] => None
  | (k', v) :: d' => if Z.eqb k k' then Some v else zlookup k d'
  end.

(** [if c not in d: d[c] = 0.0] followed by [d[c] += v]. *)
Fixpoint add_vote (c : label) (v : Q) (d : list (label * Q)) : list (label * Q) :=
  match d with
  | [] => [(c, 0 + v)]
  | (c', s) :: d' =>
      if Z.eqb c c' then (c', s + v) :: d' else (c', s) :: add_vote c v d'
  end.

(** ** WeightedVoter.vote (consensus/voting.py) *)

Record VotingResult := {
  vr_predicted_class : label;
  vr_confidence : Q;
  vr_votes_per_class : list (label * Q);
  vr_weight_distribution : list (agent * Q)
}.

Definition prediction := (label * Q)%type.   (* (predicted_class, confidence) *)

(** The aggregation loop of [vote]: [weights[agent_name]] raises KeyError on
    a missing key (unreachable after the key-set check). *)
Fixpoint voter_votes (preds : list (agent * prediction)) (weights : list (agent * Q))
  (acc : list (label * Q)) : result (list (label * Q)) :=
  match preds with
  | [] => Ok acc
  | (a, (c, conf)) :: preds' =>
      match lookup a weights with
      | None => Err KeyError
      | Some w => voter_votes preds' weights (add_vote c (w * conf) acc)
      end
  end.

Definition vote (preds : list (agent * prediction)) (weights : list (agent * Q))
  : result VotingResult :=
  match preds with
  | [] => Err ConsensusError
  | _ =>
    if negb (same_key_set (map fst preds) (map fst weights)) then Err ConsensusError
    else
      match voter_votes preds weights [] with
      | Err e => Err e
      | Ok vpc =>
        match py_max_key vpc with
        | Err e => Err e
        | Ok final_class =>
          let total_votes := qsum (map snd vpc) in
          let score := match zlookup final_class vpc with Some s => s | None => 0 end in
          let confidence := if Qle_bool total_votes 0 then 0 else score / total_votes in
          Ok {| vr_predicted_class := final_class;
                vr_confidence := confidence;
                vr_votes_per_class := vpc;
                vr_weight_distribution := weights |}
        end
      end
  end.

(** ** compute_weighted_vote (shared/utils.py) *)

(** The aggregation loop: [weights.get(agent_name, 1.0)]. *)
Fixpoint cwv_votes (preds : list (agent * prediction)) (weights : list (agent * Q))
  (acc : list (label * Q)) : list (label * Q) :=
  match preds with
  | [] => acc
  | (a, (c, conf)) :: preds' =>
      let w := match lookup a weights with Some w => w | None => 1 end in
      cwv_votes preds' weights (add_vote c (w * conf) acc)
  end.

Definition compute_weighted_vote (preds : list (agent * prediction))
  (weights : list (agent * Q)) : label * Q :=
  let weighted_votes := cwv_votes preds weights [] in
  match py_max_key weighted_votes with
  | Err _ => (0%Z, 1 # 2)        (* if not weighted_votes: return 0, 0.5 *)
  | Ok final_prediction =>
    let confidence :=
      match zlookup final_prediction weighted_votes with Some s => s | None => 0 end in
    let total_weight := qsum (map snd weighted_votes) in
    let normalized_confidence :=
      if Qle_bool total_weight 0 then 1 # 2 else confidence / total_weight in
    (final_prediction, Qmin normalized_confidence 1)
  end.

(** ** ConsensusEngine (consensus/engine.py) *)

(** The constructor's keyword arguments used by the weight logic. *)
Record config := {
  weight_reward_correct : Q;
  weight_penalty_wrong : Q;
  weight_reward_minority : Q;
  weight_penalty_both_wrong : Q;
  weight_min : Q;
  weight_max : Q
}.

Definition default_config : config := {|
  weight_reward_correct := 105 # 100;
  weight_penalty_wrong := 90 # 100;
  weight_reward_minority := 115 # 100;
  weight_penalty_both_wrong := 85 # 100;
  weight_min := 1 # 10;
  weight_max := 5
|}.

(** One element of [prediction_history] (the timestamp is left out). *)
Record history_entry := {
  he_true_label : label;
  he_majority_class : label;
  he_predictions : list (agent * prediction);
  he_weights_after : list (agent * Q)
}.

(** The fields of a [ConsensusEngine] instance; [agents] holds the keys of
    the [agents] dict (the agent objects are external collaborators). *)
Record engine := {
  cfg : config;
  agents : list agent;
  weights : list (agent * Q);
  prediction_history : list history_entry
}.

Definition set_weights (st : engine) (ws : list (agent * Q)) : engine :=
  {| cfg := cfg st; agents := agents st; weights := ws;
     prediction_history := prediction_history st |}.

(** [__init__]: [self.weights = {name: 1.0 for name in agents.keys()}]. *)
Definition init_engine (c : config) (names : list agent) : engine :=
  {| cfg := c; agents := names; weights := map (fun n => (n, 1)) names;
     prediction_history := [] |}.

(** [set(classes)] for the class labels in use: CPython stores a small
    non-negative int [k] in slot [k] of a fresh set table (8 slots for up to
    5 elements) and iterates slots in index order, so the set of the labels
    {0, 1} is iterated in ascending order; the model uses ascending order.
    For other labels (negative, or spread over more slots) CPython's order can
    differ: only the order on {0, 1} is relied on (C4), elsewhere only the
    set's elements ([py_set_order_In]). *)
Fixpoint insert_sorted (x : label) (l : list label) : list label :=
  match l with
  | [] => [x]
  | y :: l' =>
      if Z.eqb x y then l
      else if Z.ltb x y then x :: l else y :: insert_sorted x l'
  end.

Definition py_set_order (l : list label) : list label :=
  fold_right insert_sorted [] l.

(** [classes.count(c)] *)
Definition count_occ_label (l : list label) (c : label) : nat :=
  List.length (filter (Z.eqb c) l).

(** [_get_majority_prediction]:
    [max(set(classes), key=classes.count)]. *)
Definition get_majority_prediction (preds : list (agent * prediction))
  : result label :=
  let classes := map (fun p => fst (snd p)) preds in
  py_max_key (map (fun c => (c, inject_Z (Z.of_nat (count_occ_label classes c))))
                  (py_set_order classes)).

(** The if/elif chain choosing the multiplier. *)
Definition multiplier (c : config) (agent_correct majority_correct : bool) : Q :=
  if agent_correct && majority_correct then weight_reward_correct c
  else if agent_correct && negb majority_correct then weight_reward_minority c
  else if negb agent_correct && majority_correct then weight_penalty_wrong c
  else weight_penalty_both_wrong c.

(** The per-agent loop of [update_weights_from_feedback]:
    [self.weights[a] *= m; self.weights[a] = np.clip(...)].  A name missing
    from [self.weights] raises KeyError, with the earlier agents already
    updated; the result carries the weights as they stand. *)
Fixpoint feedback_loop (c : config) (majority_class true_label : label)
  (preds : list (agent * prediction)) (ws : list (agent * Q))
  : option exn * list (agent * Q) :=
  match preds with
  | [] => (None, ws)
  | (a, (predicted_class, _)) :: preds' =>
      match lookup a ws with
      | None => (Some KeyError, ws)
      | Some w =>
          let m := multiplier c (Z.eqb predicted_class true_label)
                                (Z.eqb majority_class true_label) in
          feedback_loop c majority_class true_label preds'
            (update a (clip (w * m) (weight_min c) (weight_max c)) ws)
      end
  end.

(** The normalisation loop: every entry of [self.weights] is divided by the
    [weight_sum] computed before the loop and multiplied by [len(self.agents)]. *)
Definition renormalize (weight_sum num_agents : Q) (ws : list (agent * Q))
  : list (agent * Q) :=
  map (fun aw => (fst aw, snd aw / weight_sum * num_agents)) ws.

Definition num_agents (st : engine) : Q := inject_Z (Z.of_nat (List.length (agents st))).

(** [update_weights_from_feedback(true_label, predictions)].  [weight_sum] is
    a numpy float64 (the weights were produced by [np.clip]); when it is 0,
    Python does not raise but divides to inf/nan weights and goes on to append
    the history entry.  Exact rationals have no inf/nan, so the model stops
    there with the marker [NonFiniteWeights]; from every state reachable with
    [0 < weight_min] the branch is never taken ([feedback_sum_nonzero]). *)
Definition update_weights_from_feedback (true_label : label)
  (preds : list (agent * prediction)) (st : engine)
  : result (list (agent * Q)) * engine :=
  match get_majority_prediction preds with
  | Err e => (Err e, st)
  | Ok majority_class =>
    match feedback_loop (cfg st) majority_class true_label preds (weights st) with
    | (Some e, ws1) => (Err e, set_weights st ws1)
    | (None, ws1) =>
      let weight_sum := qsum (map snd ws1) in
      if Qeq_bool weight_sum 0 then (Err NonFiniteWeights, set_weights st ws1)
      else
        let ws2 := renormalize weight_sum (num_agents st) ws1 in
        let entry := {| he_true_label := true_label;
                        he_majority_class := majority_class;
                        he_predictions := preds;
                        he_weights_after := ws2 |} in
        (Ok ws2,
         {| cfg := cfg st; agents := agents st; weights := ws2;
            prediction_history := prediction_history st ++ [entry] |})
    end
  end.

(** [reset_weights] *)
Definition reset_weights (st : engine) : engine :=
  set_weights st (map (fun n => (n, 1)) (agents st)).

(** [set_weight(agent_name, weight)] *)
Definition set_weight (a : agent) (w : Q) (st : engine) : result unit * engine :=
  if negb (mem a (agents st)) then (Err ConsensusError, st)
  else (Ok tt, set_weights st (update a (clip w (weight_min (cfg st))
                                                  (weight_max (cfg st))) (weights st))).

(** [get_weights]: a copy of the weight dict. *)
Definition get_weights (st : engine) : list (agent * Q) := weights st.

(** [get_prediction_history] *)
Definition get_prediction_history (st : engine) : list history_entry :=
  prediction_history st.

(** The counters of [get_agent_reputation]: [total_predictions] and the
    [correct] count (predictions of the agent zipped with all true labels). *)
Definition reputation_counts (st : engine) (a : agent) : result (nat * nat) :=
  if negb (mem a (agents st)) then Err ConsensusError
  else
    let hist := prediction_history st in
    let preds := flat_map (fun h => match lookup a (he_predictions h) with
                                    | Some p => [p] | None => [] end) hist in
    let true_labels := map he_true_label hist in
    let correct := List.length (filter (fun pt => Z.eqb (fst (fst pt)) (snd pt))
                                  (combine preds true_labels)) in
    Ok (List.length preds, correct).

(** [predict(X)]: [rows] is [X.shape[0]].  For each agent, in the order of
    [self.agents], [agent_out] gives what the collaborator's [predict(X)]
    returns and [agent_reasoning] what its call [_generate_reasoning()] does:
    it returns the reasoning (kept here as text) or raises.  The repository's
    model agents declare [_generate_reasoning(self, X, prediction)], so for
    them the zero-argument call raises TypeError.  The vote goes through
    [compute_weighted_vote]. *)
Record ConsensusResult := {
  cr_predicted_class : label;
  cr_confidence : Q;
  cr_agent_predictions : list (agent * prediction);
  cr_weights : list (agent * Q);
  cr_reasoning : list (agent * string)
}.

(** The [reasoning] dict built by the loop; the first agent whose
    [_generate_reasoning()] raises ends the call with that exception. *)
Fixpoint collect_reasoning (agent_reasoning : agent -> result string) (names : list agent)
  : result (list (agent * string)) :=
  match names with
  | [] => Ok []
  | a :: names' =>
      match agent_reasoning a with
      | Err e => Err e
      | Ok r =>
          match collect_reasoning agent_reasoning names' with
          | Err e => Err e
          | Ok rs => Ok ((a, r) :: rs)
          end
      end
  end.

Definition predict (rows : Z) (agent_out : agent -> prediction)
  (agent_reasoning : agent -> result string) (st : engine)
  : result ConsensusResult :=
  if negb (Z.eqb rows 1) then Err ConsensusError
  else
    match collect_reasoning agent_reasoning (agents st) with
    | Err e => Err e
    | Ok reasoning =>
      let agent_predictions := map (fun a => (a, agent_out a)) (agents st) in
      let '(final_class, final_confidence) :=
        compute_weighted_vote agent_predictions (weights st) in
      Ok {| cr_predicted_class := final_class;
            cr_confidence := final_confidence;
            cr_agent_predictions := agent_predictions;
            cr_weights := weights st;
            cr_reasoning := reasoning |}
    end.

(** ** The public operations and the states they reach *)

Inductive op :=
| OpPredict (rows : Z) (agent_out : agent -> prediction)
            (agent_reasoning : agent -> result string)
| OpRecordFeedback (true_label : label) (preds : list (agent * prediction))
| OpResetWeights
| OpSetWeight (a : agent) (w : Q)
| OpGetWeights
| OpGetReputation (a : agent).

(** The state after a call, whether it returned or raised. *)
Definition run_op (o : op) (st : engine) : engine :=
  match o with
  | OpPredict _ _ _ => st
  | OpRecordFeedback tl preds => snd (update_weights_from_feedback tl preds st)
  | OpResetWeights => reset_weights st
  | OpSetWeight a w => snd (set_weight a w st)
  | OpGetWeights => st
  | OpGetReputation _ => st
  end.

Definition run_ops (ops : list op) (st : engine) : engine :=
  fold_left (fun s o => run_op o s) ops st.

Inductive reachable (c : config) : engine -> Prop :=
| reach_init names : reachable c (init_engine c names)
| reach_step st o : reachable c st -> reachable c (run_op o st).

(** ** exceptions_v2.py: the names the module binds *)

Definition exceptions_v2_names : list string :=
  [ "SentinelNetException"; "DataException"; "DataLoadingError";
    "DataPreprocessingError"; "DataValidationError"; "ModelException";
    "ModelTrainingError"; "ModelPredictionError"; "AgentException";
    "ConsensusException"; "ConsensusVotingError"; "ReputationError";
    "WeightUpdateError"; "ConfigException"; "DatabaseException";
    "DatabaseError" ]%string.

(** [from module import name]: fails with ImportError on an unbound name. *)
Definition from_import (module_names : list string) (name : string) : result string :=
  if mem name module_names then Ok name else Err ImportError.

(** * Spec-side definitions *)

(** The four outcome buckets of the reward table (spec §4.2). *)
Inductive bucket := RewardCorrect | RewardMinority | PenaltyWrong | PenaltyBothWrong.

Definition classify (agent_correct majority_correct : bool) : bucket :=
  match agent_correct, majority_correct with
  | true, true => RewardCorrect
  | true, false => RewardMinority
  | false, true => PenaltyWrong
  | false, false => PenaltyBothWrong
  end.

Definition bucket_multiplier (b : bucket) : Q :=
  match b with
  | RewardCorrect => 105 # 100
  | RewardMinority => 115 # 100
  | PenaltyWrong => 90 # 100
  | PenaltyBothWrong => 85 # 100
  end.

(** The total weighted score [Σ weight[a] * confidence] of a vote map. *)
Definition weighted_total (preds : list (agent * prediction)) (ws : list (agent * Q)) : Q :=
  qsum (map (fun p => match lookup (fst p) ws with Some w => w | None => 0 end
                      * snd (snd p)) preds).

(** The classes of a vote map in the order of their first vote. *)
Definition first_appearance (l : list label) : list label :=
  fold_left (fun acc c => if existsb (Z.eqb c) acc then acc else acc ++ [c]) l [].

(** Constructor arguments the invariants need. *)
Definition wf_config (c : config) : Prop :=
  0 < weight_min c /\ weight_min c <= weight_max c.

(** [weights.get(a, 1.0)] *)
Definition weight_or_1 (ws : list (agent * Q)) (a : agent) : Q :=
  match lookup a ws with Some w => w | None => 1 end.

(** The invariant of the engine's fields. *)
Definition engine_inv (c : config) (st : engine) : Prop :=
  cfg st = c /\ map fst (weights st) = agents st /\
  Forall (fun aw => 0 < snd aw) (weights st).

(** * Concrete inputs of the scenarios and counterexamples *)

(** The state of the C1 counterexample: two agents, weights set to the bounds
    5.0 and 0.1, then one feedback round where both are right. *)
Definition c1_state : engine :=
  run_op (OpRecordFeedback 0%Z [("a", (0%Z, 9 # 10)); ("b", (0%Z, 9 # 10))]%string)
    (run_op (OpSetWeight "b"%string (1 # 10))
      (run_op (OpSetWeight "a"%string 5)
        (init_engine default_config ["a"; "b"]%string))).

(** The engine of the spec's scenarios: agents A, B, C, default configuration. *)
Definition scenario_engine : engine :=
  init_engine default_config ["A"; "B"; "C"]%string.

(** The votes of the spec's Scenario C. *)
Definition scenario_c_votes : list (agent * prediction) :=
  [("A", (0%Z, 95 # 100)); ("B", (1%Z, 92 # 100)); ("C", (1%Z, 9 # 10))]%string.

(** The inputs of the C5 counterexample: both confidences are zero. *)
Definition zero_votes : list (agent * prediction) :=
  [("a", (1%Z, 0)); ("b", (0%Z, 0))]%string.

Definition unit_weights : list (agent * Q) := [("a", 1); ("b", 1)]%string.

(** The votes of the C4 counterexample: an exact tie between classes 1 and 0,
    class 1 voted first. *)
Definition tie_votes : list (agent * prediction) :=
  [("a", (1%Z, 1 # 2)); ("b", (0%Z, 1 # 2))]%string.

Definition two_agent_engine : engine := init_engine default_config ["a"; "b"]%string.

(** A vote map naming an agent the engine does not track, after a known one. *)
Definition unknown_agent_votes : list (agent * prediction) :=
  [("a", (0%Z, 9 # 10)); ("zzz", (0%Z, 9 # 10))]%string.

(** * Further functions of voting.py, utils.py and reputation.py *)

(** ** WeightedVoter.get_majority_prediction (voting.py) *)

Definition voter_get_majority_prediction (preds : list (agent * prediction))
  : result label :=
  let classes := map (fun p => fst (snd p)) preds in
  match classes with
  | [] => Err ConsensusError
  | _ => py_max_key (map (fun c => (c, inject_Z (Z.of_nat (count_occ_label classes c))))
                         (py_set_order classes))
  end.

(** Python's [max] over a non-empty list of floats (the first maximal one). *)
Fixpoint py_max_from (best : Q) (l : list Q) : Q :=
  match l with
  | [] => best
  | x :: l' => if Qle_bool x best then py_max_from best l' else py_max_from x l'
  end.

(** ** WeightedVoter.calculate_consensus_confidence (voting.py) *)

Definition calculate_consensus_confidence (votes_per_class : list (label * Q))
  (consensus_threshold : Q) : Q * bool :=
  match votes_per_class with
  | [] => (0, false)
  | (_, v0) :: rest =>
    let total_votes := qsum (map snd votes_per_class) in
    if Qeq_bool total_votes 0 then (0, false)
    else
      let max_votes := py_max_from v0 (map snd rest) in
      let confidence := max_votes / total_votes in
      (confidence, Qle_bool consensus_threshold confidence)
  end.

(** ** compute_consensus_confidence (utils.py) *)

Definition compute_consensus_confidence (preds : list (agent * prediction))
  (final_prediction : label) : Q :=
  let matching_preds :=
    map (fun p => snd (snd p)) (filter (fun p => Z.eqb (fst (snd p)) final_prediction) preds) in
  match matching_preds with
  | [] => 1 # 2
  | _ =>
    let agreement_confidence :=
      qsum matching_preds / inject_Z (Z.of_nat (List.length matching_preds)) in
    let agreement_ratio :=
      inject_Z (Z.of_nat (List.length matching_preds)) / inject_Z (Z.of_nat (List.length preds)) in
    Qmin ((7 # 10) * agreement_confidence + (3 # 10) * agreement_ratio) 1
  end.

(** ** Python's stable [sorted] on (name, value) pairs, keyed by the value *)

(** Insertion sort: each element, taken in the input order, goes before the
    first element it must precede, so elements with equal keys keep their
    input order, as in Python's stable sort (also with [reverse=True]). *)
Fixpoint insert_by (before : agent * Q -> agent * Q -> bool) (x : agent * Q)
  (l : list (agent * Q)) : list (agent * Q) :=
  match l with
  | [] => [x]
  | y :: l' => if before x y then x :: l else y :: insert_by before x l'
  end.

Definition sort_by (before : agent * Q -> agent * Q -> bool) (l : list (agent * Q))
  : list (agent * Q) :=
  fold_left (fun acc x => insert_by before x acc) l [].

(** [sorted(items, key=lambda x: x[1], reverse=True)] *)
Definition sorted_desc (l : list (agent * Q)) : list (agent * Q) :=
  sort_by (fun x y => negb (Qle_bool (snd x) (snd y))) l.

(** [sorted(items, key=lambda x: x[1])] *)
Definition sorted_asc (l : list (agent * Q)) : list (agent * Q) :=
  sort_by (fun x y => negb (Qle_bool (snd y) (snd x))) l.

(** The slice [l[:n]]: a negative [n] counts from the end. *)
Definition py_slice_to {A} (n : Z) (l : list A) : list A :=
  if Z.leb 0 n then firstn (Z.to_nat n) l
  else firstn (Z.to_nat (Z.of_nat (List.length l) + n)) l.

(** [get_top_agents(weights, n)] (utils.py) *)
Definition get_top_agents (ws : list (agent * Q)) (n : Z) : list agent :=
  map fst (py_slice_to n (sorted_desc ws)).

(** [get_bottom_agents(weights, n)] (utils.py) *)
Definition get_bottom_agents (ws : list (agent * Q)) (n : Z) : list agent :=
  map fst (py_slice_to n (sorted_asc ws)).

(** ** ReputationManager (reputation.py) *)

(** [AgentReputation] (the [last_updated] timestamp is left out). *)
Record AgentReputation := {
  rep_agent_name : agent;
  total_predictions : nat;
  correct_predictions : nat;
  accuracy : Q;
  current_weight : Q;
  confidence_avg : Q;
  confidence_std : Q;
  minority_correct : nat;
  majority_correct : nat;
  both_wrong : nat;
  weight_history : list Q;
  accuracy_history : list Q
}.

Definition new_reputation (name : agent) (initial_weight : Q) : AgentReputation := {|
  rep_agent_name := name; total_predictions := 0; correct_predictions := 0;
  accuracy := 0; current_weight := initial_weight; confidence_avg := 0;
  confidence_std := 0; minority_correct := 0; majority_correct := 0; both_wrong := 0;
  weight_history := []; accuracy_history := [] |}.

(** An element of [prediction_records] (the timestamp is left out). *)
Record prediction_record := {
  pr_agent_name : agent;
  pr_predicted_class : label;
  pr_true_class : label;
  pr_correct : bool;
  pr_confidence : Q;
  pr_majority_class : label
}.

Record ReputationManager := {
  reputations : list (agent * AgentReputation);
  prediction_records : list prediction_record
}.

Definition empty_manager : ReputationManager :=
  {| reputations := []; prediction_records := [] |}.

(** [initialize_agent]: [None] is the raised ConsensusException, which
    happens before any mutation. *)
Definition initialize_agent (name : agent) (initial_weight : Q) (m : ReputationManager)
  : option ReputationManager :=
  if mem name (map fst (reputations m)) then None
  else Some {| reputations := reputations m ++ [(name, new_reputation name initial_weight)];
               prediction_records := prediction_records m |}.

(** [if agent_name not in self.reputations: self.initialize_agent(agent_name)] *)
Definition ensure_agent (name : agent) (m : ReputationManager) : ReputationManager :=
  match initialize_agent name 1 m with Some m' => m' | None => m end.

(** The counter updates of [record_prediction]. *)
Definition recorded_reputation (rep : AgentReputation) (predicted_class true_class : label)
  (confidence : Q) (majority_class : label) : AgentReputation :=
  let total := S (total_predictions rep) in
  let agent_correct := Z.eqb predicted_class true_class in
  let majority_ok := Z.eqb majority_class true_class in
  let correct := if agent_correct then S (correct_predictions rep) else correct_predictions rep in
  let maj := if agent_correct && majority_ok then S (majority_correct rep)
             else majority_correct rep in
  let minc := if agent_correct && negb majority_ok then S (minority_correct rep)
              else minority_correct rep in
  let bw := if negb agent_correct && negb majority_ok then S (both_wrong rep)
            else both_wrong rep in
  {| rep_agent_name := rep_agent_name rep;
     total_predictions := total;
     correct_predictions := correct;
     accuracy := inject_Z (Z.of_nat correct) / inject_Z (Z.of_nat total);
     current_weight := current_weight rep;
     confidence_avg :=
       (confidence_avg rep * inject_Z (Z.of_nat total - 1) + confidence)
       / inject_Z (Z.of_nat total);
     confidence_std := confidence_std rep;
     minority_correct := minc;
     majority_correct := maj;
     both_wrong := bw;
     weight_history := weight_history rep;
     accuracy_history := accuracy_history rep |}.

(** [record_prediction]: the reputation object is mutated in place; the
    fallback of the lookup is never taken, as [ensure_agent] has added the
    agent. *)
Definition record_prediction (name : agent) (predicted_class true_class : label)
  (confidence : Q) (majority_class : label) (m : ReputationManager) : ReputationManager :=
  let m1 := ensure_agent name m in
  let rep := match lookup name (reputations m1) with
             | Some r => r | None => new_reputation name 1 end in
  {| reputations :=
       update name (recorded_reputation rep predicted_class true_class confidence majority_class)
         (reputations m1);
     prediction_records :=
       prediction_records m1 ++
       [{| pr_agent_name := name; pr_predicted_class := predicted_class;
           pr_true_class := true_class; pr_correct := Z.eqb predicted_class true_class;
           pr_confidence := confidence; pr_majority_class := majority_class |}] |}.

(** [update_weight]: [None] is the raised ConsensusException. *)
Definition update_weight (name : agent) (new_weight : Q) (m : ReputationManager)
  : option ReputationManager :=
  match lookup name (reputations m) with
  | None => None
  | Some rep =>
    Some {| reputations :=
              update name
                {| rep_agent_name := rep_agent_name rep;
                   total_predictions := total_predictions rep;
                   correct_predictions := correct_predictions rep;
                   accuracy := accuracy rep;
                   current_weight := new_weight;
                   confidence_avg := confidence_avg rep;
                   confidence_std := confidence_std rep;
                   minority_correct := minority_correct rep;
                   majority_correct := majority_correct rep;
                   both_wrong := both_wrong rep;
                   weight_history := weight_history rep ++ [new_weight];
                   accuracy_history := accuracy_history rep ++ [accuracy rep] |}
                (reputations m);
            prediction_records := prediction_records m |}
  end.

(** The computed entries of [get_agent_stats]. *)
Record AgentStats := {
  stats_total_predictions : nat;
  stats_win_vs_majority_rate : Q;
  stats_agreement_with_majority : Q;
  stats_weight_trend : string
}.

Definition nat_q (n : nat) : Q := inject_Z (Z.of_nat n).

Definition get_agent_stats (name : agent) (m : ReputationManager) : option AgentStats :=
  match lookup name (reputations m) with
  | None => None
  | Some rep =>
    let win_vs_majority :=
      if Nat.ltb 0 (minority_correct rep + majority_correct rep)
      then nat_q (minority_correct rep) / nat_q (minority_correct rep + majority_correct rep)
      else 0 in
    let majority_agreements := (majority_correct rep + both_wrong rep)%nat in
    let agreement_rate :=
      if Nat.ltb 0 (total_predictions rep)
      then nat_q majority_agreements / nat_q (total_predictions rep) else 0 in
    let wh := rev (weight_history rep) in
    let trend :=
      match wh with
      | last :: prev :: _ =>
          if negb (Qle_bool last prev) then "increasing"%string else "decreasing"%string
      | _ => "stable"%string
      end in
    Some {| stats_total_predictions := total_predictions rep;
            stats_win_vs_majority_rate := win_vs_majority;
            stats_agreement_with_majority := agreement_rate;
            stats_weight_trend := trend |}
  end.

(** [rank_agents_by_accuracy] and [rank_agents_by_weight] *)
Definition rank_agents_by_accuracy (m : ReputationManager) : list (agent * Q) :=
  sorted_desc (map (fun nr => (fst nr, accuracy (snd nr))) (reputations m)).

Definition rank_agents_by_weight (m : ReputationManager) : list (agent * Q) :=
  sorted_desc (map (fun nr => (fst nr, current_weight (snd nr))) (reputations m)).

(** [reset_all] *)
Definition reset_all (m : ReputationManager) : ReputationManager := empty_manager.

(** The mutating calls of a ReputationManager; a raising call leaves it as it was. *)
Inductive rm_op :=
| RmInitialize (name : agent) (initial_weight : Q)
| RmRecord (name : agent) (predicted_class true_class : label) (confidence : Q)
    (majority_class : label)
| RmUpdateWeight (name : agent) (new_weight : Q)
| RmResetAll.

Definition run_rm_op (o : rm_op) (m : ReputationManager) : ReputationManager :=
  match o with
  | RmInitialize n w => match initialize_agent n w m with Some m' => m' | None => m end
  | RmRecord n p t c mc => record_prediction n p t c mc m
  | RmUpdateWeight n w => match update_weight n w m with Some m' => m' | None => m end
  | RmResetAll => reset_all m
  end.

Inductive rm_reachable : ReputationManager -> Prop :=
| rm_reach_init : rm_reachable empty_manager
| rm_reach_step m o : rm_reachable m -> rm_reachable (run_rm_op o m).

(** The recorded confidences of an agent. *)
Definition records_of (name : agent) (rs : list prediction_record) : list prediction_record :=
  filter (fun r => String.eqb (pr_agent_name r) name) rs.

(** What the counters of an agent's reputation say about the records. *)
Definition rep_ok (name : agent) (rep : AgentReputation) (recs : list prediction_record)
  : Prop :=
  rep_agent_name rep = name /\
  (majority_correct rep + minority_correct rep = correct_predictions rep)%nat /\
  (correct_predictions rep + both_wrong rep <= total_predictions rep)%nat /\
  accuracy rep == (if Nat.eqb (total_predictions rep) 0 then 0
                   else nat_q (correct_predictions rep) / nat_q (total_predictions rep)) /\
  total_predictions rep = List.length (records_of name recs) /\
  correct_predictions rep = List.length (filter pr_correct (records_of name recs)) /\
  confidence_avg rep * nat_q (total_predictions rep)
    == qsum (map pr_confidence (records_of name recs)) /\
  List.length (weight_history rep) = List.length (accuracy_history rep) /\
  (weight_history rep = [] \/ exists pre, weight_history rep = pre ++ [current_weight rep]).

(** The invariant of a ReputationManager. *)
Definition rm_inv (m : ReputationManager) : Prop :=
  (forall r, In r (prediction_records m) -> lookup (pr_agent_name r) (reputations m) <> None) /\
  (forall name rep, lookup name (reputations m) = Some rep ->
                    rep_ok name rep (prediction_records m)).

(** A ReputationManager after a few calls. *)
Definition sample_manager : ReputationManager :=
  run_rm_op (RmUpdateWeight "a"%string (12 # 10))
    (run_rm_op (RmRecord "b"%string 1%Z 0%Z (7 # 10) 0%Z)
      (run_rm_op (RmRecord "a"%string 0%Z 0%Z (9 # 10) 0%Z)
        (run_rm_op (RmInitialize "a"%string 1) empty_manager))).

(** A vote map with one vote per class. *)
Definition split_votes : list (agent * prediction) :=
  [("a", (0%Z, 9 # 10)); ("b", (1%Z, 6 # 10))]%string.

(** * Lemmas *)

Section DictLemmas.
Context {V : Type}.

Lemma lookup_update_eq (k : string) (v : V) (d : list (string * V)) w :
  lookup k d = Some w -> lookup k (update k v d) = Some v.
Proof.
  induction d as [|[k' v'] d IH]; simpl; [discriminate|].
  destruct (String.eqb k k') eqn:E; simpl; rewrite ?E; auto.
Qed.

Lemma lookup_update_neq (k k2 : string) (v : V) (d : list (string * V)) :
  k2 <> k -> lookup k2 (update k v d) = lookup k2 d.
Proof.
  intros Hne. induction d as [|[k' v'] d IH]; simpl; auto.
  destruct (String.eqb k k') eqn:E; simpl.
  - apply String.eqb_eq in E; subst k'.
    destruct (String.eqb k2 k) eqn:E2; auto.
    apply String.eqb_eq in E2; congruence.
  - rewrite IH; reflexivity.
Qed.

Lemma keys_update (k : string) (v : V) (d : list (string * V)) :
  map fst (update k v d) = map fst d.
Proof.
  induction d as [|[k' v'] d IH]; simpl; auto.
  destruct (String.eqb k k'); simpl; congruence.
Qed.

Lemma lookup_In_keys (k : string) (d : list (string * V)) :
  In k (map fst d) -> exists v, lookup k d = Some v.
Proof.
  induction d as [|[k' v'] d IH]; simpl; [tauto|].
  destruct (String.eqb k k') eqn:E; eauto.
  intros [H|H]; [apply String.eqb_neq in E; congruence | auto].
Qed.

Lemma lookup_None_keys (k : string) (d : list (string * V)) :
  lookup k d = None -> ~ In k (map fst d).
Proof.
  intros H Hin. destruct (lookup_In_keys k d Hin) as [v Hv]. congruence.
Qed.

End DictLemmas.

Lemma mem_In (k : string) (ks : list string) : mem k ks = true <-> In k ks.
Proof.
  unfold mem. rewrite existsb_exists. split.
  - intros [x [Hx E]]. apply String.eqb_eq in E. subst. exact Hx.
  - intros H. exists k. split; [exact H | apply String.eqb_refl].
Qed.

Lemma lookup_const_map (names : list string) (a : string) (x : Q) :
  In a names -> lookup a (map (fun n => (n, x)) names) = Some x.
Proof.
  induction names as [|n names IH]; simpl; [tauto|].
  destruct (String.eqb a n) eqn:E; auto.
  intros [H|H]; [apply String.eqb_neq in E; congruence | auto].
Qed.

(** ** Q arithmetic *)

Lemma lookup_app {V} (k : string) (d1 d2 : list (string * V)) :
  lookup k (d1 ++ d2) = match lookup k d1 with Some v => Some v | None => lookup k d2 end.
Proof.
  induction d1 as [|[k' v'] d1 IH]; simpl; [reflexivity|].
  destruct (String.eqb k k'); [reflexivity | exact IH].
Qed.

Lemma weight_const_map_1 (names : list string) (a : string) :
  match lookup a (map (fun n => (n, 1)) names) with Some w => w | None => 1 end = 1.
Proof.
  induction names as [|n names IH]; simpl; [reflexivity|].
  destruct (String.eqb a n); [reflexivity | exact IH].
Qed.

Lemma clip_bounds (x lo hi : Q) : lo <= hi -> lo <= clip x lo hi /\ clip x lo hi <= hi.
Proof.
  intros H. unfold clip. split.
  - apply Q.min_glb; [apply Q.le_max_r | exact H].
  - apply Q.le_min_r.
Qed.

Lemma qsum_pos (l : list Q) : l <> [] -> Forall (fun w => 0 < w) l -> 0 < qsum l.
Proof.
  induction l as [|x l IH]; [congruence|]. intros _ Hf.
  inversion Hf; subst. simpl. destruct l as [|y l].
  - simpl. rewrite Qplus_0_r. assumption.
  - apply (Qlt_le_trans _ (x + 0)); [rewrite Qplus_0_r; assumption|].
    apply Qplus_le_compat; [apply Qle_refl|].
    apply Qlt_le_weak, IH; [discriminate | assumption].
Qed.

Lemma renormalize_sum (S N : Q) (ws : list (agent * Q)) :
  ~ S == 0 -> qsum (map snd (renormalize S N ws)) == qsum (map snd ws) / S * N.
Proof.
  intros HS. induction ws as [|[a w] ws IH]; simpl.
  - field. exact HS.
  - rewrite IH. field. exact HS.
Qed.

Lemma renormalize_keys (S N : Q) (ws : list (agent * Q)) :
  map fst (renormalize S N ws) = map fst ws.
Proof. unfold renormalize. rewrite map_map. reflexivity. Qed.

Lemma renormalize_lookup (S N : Q) (ws : list (agent * Q)) a w :
  lookup a ws = Some w -> lookup a (renormalize S N ws) = Some (w / S * N).
Proof.
  induction ws as [|[k v] ws IH]; simpl; [discriminate|].
  destruct (String.eqb a k); [congruence | exact IH].
Qed.

Lemma pos_div_mul (w S N : Q) : 0 < w -> 0 < S -> 0 < N -> 0 < w / S * N.
Proof.
  intros Hw HS HN. unfold Qdiv.
  apply Qmult_lt_0_compat; [apply Qmult_lt_0_compat|]; auto.
  apply Qinv_lt_0_compat; exact HS.
Qed.

(** ** The engine invariant *)

Lemma update_pos (a : agent) (v : Q) (ws : list (agent * Q)) :
  0 < v -> Forall (fun aw => 0 < snd aw) ws -> Forall (fun aw => 0 < snd aw) (update a v ws).
Proof.
  intros Hv Hf. induction Hf as [|[k w] ws Hw Hf IH]; simpl; [constructor|].
  destruct (String.eqb a k); constructor; simpl in *; auto.
Qed.

Lemma clip_pos (c : config) (x : Q) :
  wf_config c -> 0 < clip x (weight_min c) (weight_max c).
Proof.
  intros [Hlo Hle]. destruct (clip_bounds x _ _ Hle) as [H _].
  exact (Qlt_le_trans _ _ _ Hlo H).
Qed.

Lemma feedback_loop_keys c maj tl preds ws :
  map fst (snd (feedback_loop c maj tl preds ws)) = map fst ws.
Proof.
  revert ws. induction preds as [|[a [p conf]] preds IH]; intros ws; simpl; auto.
  destruct (lookup a ws); simpl; auto.
  rewrite IH. apply keys_update.
Qed.

Lemma feedback_loop_pos c maj tl preds ws :
  wf_config c -> Forall (fun aw => 0 < snd aw) ws ->
  Forall (fun aw => 0 < snd aw) (snd (feedback_loop c maj tl preds ws)).
Proof.
  intros Hc. revert ws. induction preds as [|[a [p conf]] preds IH]; intros ws Hws;
    simpl; auto.
  destruct (lookup a ws); simpl; auto.
  apply IH, update_pos; auto. apply clip_pos; exact Hc.
Qed.

Lemma num_agents_pos (st : engine) : agents st <> [] -> 0 < num_agents st.
Proof.
  unfold num_agents. destruct (agents st); [congruence|]. intros _.
  unfold Qlt; simpl. lia.
Qed.

(** A feedback call that returns normally: what it computed. *)
Lemma update_weights_ok tl preds st ws2 st' :
  update_weights_from_feedback tl preds st = (Ok ws2, st') ->
  exists maj ws1,
    get_majority_prediction preds = Ok maj /\
    feedback_loop (cfg st) maj tl preds (weights st) = (None, ws1) /\
    Qeq_bool (qsum (map snd ws1)) 0 = false /\
    ws2 = renormalize (qsum (map snd ws1)) (num_agents st) ws1 /\
    weights st' = ws2 /\ agents st' = agents st /\ cfg st' = cfg st.
Proof.
  unfold update_weights_from_feedback.
  destruct (get_majority_prediction preds) as [maj|e]; [|discriminate].
  destruct (feedback_loop (cfg st) maj tl preds (weights st)) as [[e|] ws1] eqn:E;
    [discriminate|].
  destruct (Qeq_bool (qsum (map snd ws1)) 0) eqn:Z; [discriminate|].
  intros H; inversion H; subst; clear H.
  exists maj, ws1. repeat split; auto.
Qed.

Lemma run_op_inv c st o : wf_config c -> engine_inv c st -> engine_inv c (run_op o st).
Proof.
  intros Hc [Hcfg [Hkeys Hpos]]. destruct o as [rows out rsn|tl preds| |a w| |a]; simpl;
    try (repeat split; assumption).
  - (* RecordFeedback *)
    unfold update_weights_from_feedback.
    destruct (get_majority_prediction preds) as [maj|e];
      [|simpl; repeat split; assumption].
    pose proof (feedback_loop_keys (cfg st) maj tl preds (weights st)) as Hk.
    pose proof (feedback_loop_pos (cfg st) maj tl preds (weights st)) as Hp.
    destruct (feedback_loop (cfg st) maj tl preds (weights st)) as [[e|] ws1];
      simpl in Hk, Hp; rewrite Hcfg in Hp; specialize (Hp Hc Hpos).
    + simpl. repeat split; simpl; congruence || assumption.
    + destruct (Qeq_bool (qsum (map snd ws1)) 0) eqn:Z;
        simpl; repeat split; simpl; try congruence; try assumption.
      * rewrite renormalize_keys. congruence.
      * destruct ws1 as [|aw ws1]; [constructor|].
        assert (HS : 0 < qsum (map snd (aw :: ws1))).
        { apply qsum_pos; [discriminate|]. apply Forall_map. exact Hp. }
        assert (HN : 0 < num_agents st).
        { apply num_agents_pos. rewrite <- Hkeys, <- Hk. discriminate. }
        unfold renormalize. apply Forall_map.
        refine (Forall_impl _ _ Hp). intros [k v] Hv. simpl in *.
        apply pos_div_mul; assumption.
  - (* ResetWeights *)
    unfold reset_weights, set_weights; repeat split; simpl; auto.
    + rewrite map_map. apply map_id.
    + apply Forall_map, Forall_forall. intros; simpl. reflexivity.
  - (* SetWeight *)
    unfold set_weight. destruct (negb (mem a (agents st))); simpl;
      repeat split; simpl; auto.
    + rewrite keys_update. exact Hkeys.
    + apply update_pos; auto. rewrite Hcfg. apply clip_pos; exact Hc.
Qed.

Lemma reachable_inv c st : wf_config c -> reachable c st -> engine_inv c st.
Proof.
  intros Hc Hr. induction Hr as [names|st o Hr IH].
  - unfold init_engine; repeat split; simpl.
    + rewrite map_map. apply map_id.
    + apply Forall_map, Forall_forall. intros; reflexivity.
  - apply run_op_inv; assumption.
Qed.

Lemma default_config_wf : wf_config default_config.
Proof. unfold wf_config; simpl; split; [reflexivity | discriminate]. Qed.

Lemma feedback_loop_other c maj tl preds ws ws' a :
  feedback_loop c maj tl preds ws = (None, ws') -> ~ In a (map fst preds) ->
  lookup a ws' = lookup a ws.
Proof.
  revert ws. induction preds as [|[a0 [p0 c0]] preds IH]; intros ws; simpl.
  - intros H _; inversion H; reflexivity.
  - destruct (lookup a0 ws) eqn:E; [|discriminate].
    intros H Hnin. rewrite (IH _ H) by tauto.
    apply lookup_update_neq. intros ->. tauto.
Qed.

Lemma feedback_loop_at c maj tl preds ws ws' a p conf w :
  NoDup (map fst preds) -> feedback_loop c maj tl preds ws = (None, ws') ->
  In (a, (p, conf)) preds -> lookup a ws = Some w ->
  lookup a ws' = Some (clip (w * multiplier c (Z.eqb p tl) (Z.eqb maj tl))
                            (weight_min c) (weight_max c)).
Proof.
  revert ws. induction preds as [|[a0 [p0 c0]] preds IH]; intros ws Hnd; simpl;
    [tauto|].
  inversion Hnd as [|? ? Hnin Hnd']; subst.
  destruct (lookup a0 ws) as [w0|] eqn:E; [|discriminate].
  intros H [Heq|Hin] Hw.
  - inversion Heq; subst. rewrite Hw in E; inversion E; subst.
    rewrite (feedback_loop_other _ _ _ _ _ _ _ H Hnin).
    eapply lookup_update_eq; eassumption.
  - assert (Hne : a <> a0).
    { intros ->. apply Hnin. apply in_map_iff. exists (a0, (p, conf)). auto. }
    apply (IH _ Hnd' H Hin). rewrite lookup_update_neq by exact Hne. exact Hw.
Qed.

Lemma multiplier_default (b1 b2 : bool) :
  multiplier default_config b1 b2 = bucket_multiplier (classify b1 b2).
Proof. destruct b1, b2; reflexivity. Qed.

(** * Claims *)

Lemma c1_state_reachable : reachable default_config c1_state.
Proof. unfold c1_state. repeat apply reach_step. apply reach_init. Qed.

(** C1 (code_bug): the bounds [weight_min, weight_max] do not hold in every
    reachable state.  With the default bounds [0.1, 5.0], setting the weights
    of two agents to 5.0 and 0.1 and recording one round in which both are
    right leaves agent "b" with weight 0.105 * 2 / 5.105, about 0.041, below
    [weight_min]: the renormalization step after the clamp is not clamped. *)
Lemma weight_bounds_violated :
  ~ (forall st, reachable default_config st ->
       forall a w, In (a, w) (weights st) ->
         weight_min default_config <= w /\ w <= weight_max default_config).
Proof.
  intros H.
  destruct (H c1_state c1_state_reachable "b"%string (210000 # 5105000)) as [Hlo _].
  - vm_compute. right; left; reflexivity.
  - unfold Qle in Hlo; simpl in Hlo. lia.
Qed.

(** C2: after a RecordFeedback call that returns normally, in any state
    reachable with a configuration satisfying [0 < weight_min <= weight_max],
    the weights of the tracked agents sum to N = len(agents), the weight keys
    are exactly the tracked agents, and every tracked agent (voting this round
    or not) gets [weight / Σ(all weights) * N], computed from the weights
    after the clamp step. *)
Theorem feedback_renormalizes_all (c : config) (st st' : engine)
  (true_label : label) (preds : list (agent * prediction)) (ws2 : list (agent * Q)) :
  wf_config c -> reachable c st ->
  update_weights_from_feedback true_label preds st = (Ok ws2, st') ->
  qsum (map snd (weights st')) == num_agents st' /\
  map fst (weights st') = agents st' /\
  exists maj ws1,
    get_majority_prediction preds = Ok maj /\
    snd (feedback_loop c maj true_label preds (weights st)) = ws1 /\
    forall a, In a (agents st') ->
      exists w1, lookup a ws1 = Some w1 /\
        lookup a (weights st') = Some (w1 / qsum (map snd ws1) * num_agents st').
Proof.
  intros Hc Hr Hup.
  destruct (reachable_inv _ _ Hc Hr) as [Hcfg [Hkeys _]].
  destruct (update_weights_ok _ _ _ _ _ Hup)
    as (maj & ws1 & Hmaj & Hloop & HS & Hws2 & Hw' & Ha' & _).
  assert (HS' : ~ qsum (map snd ws1) == 0).
  { intros E. apply Qeq_bool_iff in E. congruence. }
  assert (HN : num_agents st' = num_agents st) by (unfold num_agents; rewrite Ha'; reflexivity).
  pose proof (feedback_loop_keys (cfg st) maj true_label preds (weights st)) as Hk.
  rewrite Hloop in Hk; simpl in Hk.
  split; [|split].
  - rewrite Hw', Hws2, renormalize_sum by exact HS'. rewrite HN. field. exact HS'.
  - rewrite Hw', Hws2, renormalize_keys, Ha'. congruence.
  - exists maj, ws1. split; [exact Hmaj|]. split; [rewrite <- Hcfg, Hloop; reflexivity|].
    intros a Hin. rewrite Ha', <- Hkeys, <- Hk in Hin.
    destruct (lookup_In_keys _ _ Hin) as [w1 Hw1]. exists w1. split; [exact Hw1|].
    rewrite Hw', Hws2, HN. apply renormalize_lookup. exact Hw1.
Qed.

Lemma feedback_renormalizes_all_witness :
  exists ws2 st',
    update_weights_from_feedback 0%Z scenario_c_votes scenario_engine = (Ok ws2, st') /\
    qsum (map snd (weights st')) == num_agents st'.
Proof.
  do 2 eexists. split; [vm_compute; reflexivity|].
  refine (proj1 (feedback_renormalizes_all default_config scenario_engine _ 0%Z
                   scenario_c_votes _ default_config_wf (reach_init _ _) _)).
  vm_compute. reflexivity.
Defined.

(** C3: in RecordFeedback with the default configuration, each agent present in
    the (duplicate-free) vote map has its outcome classified into one of the
    four buckets by (predicted_class == true_label, majority_class ==
    true_label), its weight multiplied by that bucket's multiplier (1.05,
    1.15, 0.90 or 0.85) and clamped into [0.1, 5.0]; the result is then
    renormalized. *)
Theorem feedback_bucket_multiplier (st st' : engine) (true_label : label)
  (preds : list (agent * prediction)) (ws2 : list (agent * Q)) :
  cfg st = default_config -> NoDup (map fst preds) ->
  update_weights_from_feedback true_label preds st = (Ok ws2, st') ->
  exists maj ws1,
    get_majority_prediction preds = Ok maj /\
    ws2 = renormalize (qsum (map snd ws1)) (num_agents st) ws1 /\
    forall a p conf w, In (a, (p, conf)) preds -> lookup a (weights st) = Some w ->
      lookup a ws1 =
        Some (clip (w * bucket_multiplier (classify (Z.eqb p true_label)
                                                    (Z.eqb maj true_label)))
                   (1 # 10) 5).
Proof.
  intros Hcfg Hnd Hup.
  destruct (update_weights_ok _ _ _ _ _ Hup)
    as (maj & ws1 & Hmaj & Hloop & _ & Hws2 & _).
  exists maj, ws1. split; [exact Hmaj|]. split; [exact Hws2|].
  intros a p conf w Hin Hw.
  rewrite (feedback_loop_at _ _ _ _ _ _ _ _ _ _ Hnd Hloop Hin Hw).
  rewrite Hcfg, multiplier_default. reflexivity.
Qed.

Lemma feedback_bucket_multiplier_witness :
  exists ws2 st',
    update_weights_from_feedback 0%Z scenario_c_votes scenario_engine = (Ok ws2, st') /\
    exists maj ws1, get_majority_prediction scenario_c_votes = Ok maj /\
      lookup "A"%string ws1 = Some (clip (1 * bucket_multiplier RewardMinority) (1 # 10) 5).
Proof.
  do 2 eexists. split; [vm_compute; reflexivity|].
  destruct (feedback_bucket_multiplier scenario_engine _ 0%Z scenario_c_votes _
              eq_refl ltac:(vm_compute; repeat constructor; simpl; intuition discriminate)
              ltac:(vm_compute; reflexivity))
    as (maj & ws1 & Hmaj & _ & Hat).
  exists maj, ws1. split; [exact Hmaj|].
  rewrite (Hat "A"%string 0%Z (95 # 100) 1 ltac:(simpl; auto) eq_refl).
  assert (maj = 1%Z) as -> by (vm_compute in Hmaj; congruence).
  reflexivity.
Defined.

(** C8: ResetWeights followed by GetWeights gives weight 1.0 to every tracked
    agent (and has exactly the tracked agents as keys); ResetWeights leaves
    the prediction history and the reputation counters (total and correct
    predictions) unchanged. *)
Theorem reset_then_get_weights (st : engine) :
  (forall a, In a (agents st) -> lookup a (get_weights (reset_weights st)) = Some 1) /\
  map fst (get_weights (reset_weights st)) = agents st /\
  get_prediction_history (reset_weights st) = get_prediction_history st /\
  (forall a, reputation_counts (reset_weights st) a = reputation_counts st a).
Proof.
  split; [|split; [|split]].
  - intros a Hin. apply lookup_const_map. exact Hin.
  - unfold get_weights, reset_weights, set_weights; simpl.
    rewrite map_map. apply map_id.
  - reflexivity.
  - intros a. reflexivity.
Qed.

(** ** Lemmas on the vote aggregation *)

Lemma voter_votes_cwv preds ws acc vpc :
  voter_votes preds ws acc = Ok vpc -> vpc = cwv_votes preds ws acc.
Proof.
  revert acc. induction preds as [|[a [c conf]] preds IH]; intros acc; simpl.
  - congruence.
  - destruct (lookup a ws); [apply IH | discriminate].
Qed.

Lemma voter_votes_found preds ws acc :
  (forall a, In a (map fst preds) -> exists w, lookup a ws = Some w) ->
  voter_votes preds ws acc = Ok (cwv_votes preds ws acc).
Proof.
  revert acc. induction preds as [|[a [c conf]] preds IH]; intros acc H; simpl; auto.
  destruct (H a (or_introl eq_refl)) as [w Hw]. rewrite Hw.
  apply IH. intros b Hb. apply H. right. exact Hb.
Qed.

Lemma add_vote_keys c v d :
  map fst (add_vote c v d) =
  if existsb (Z.eqb c) (map fst d) then map fst d else map fst d ++ [c].
Proof.
  induction d as [|[c' s] d IH]; simpl; auto.
  destruct (Z.eqb c c'); simpl; auto.
  rewrite IH. destruct (existsb (Z.eqb c) (map fst d)); reflexivity.
Qed.

Lemma cwv_votes_keys preds ws acc :
  map fst (cwv_votes preds ws acc) =
  fold_left (fun acc c => if existsb (Z.eqb c) acc then acc else acc ++ [c])
            (map (fun p => fst (snd p)) preds) (map fst acc).
Proof.
  revert acc. induction preds as [|[a [c conf]] preds IH]; intros acc; simpl; auto.
  rewrite IH, add_vote_keys. reflexivity.
Qed.

Lemma add_vote_sum c v d : qsum (map snd (add_vote c v d)) == qsum (map snd d) + v.
Proof.
  induction d as [|[c' s] d IH]; simpl.
  - ring.
  - destruct (Z.eqb c c'); simpl; [ring|]. rewrite IH. ring.
Qed.

Lemma cwv_votes_ext preds ws ws' acc :
  (forall a, In a (map fst preds) -> weight_or_1 ws a = weight_or_1 ws' a) ->
  cwv_votes preds ws acc = cwv_votes preds ws' acc.
Proof.
  revert acc. induction preds as [|[a [c conf]] preds IH]; intros acc H; simpl; auto.
  pose proof (H a (or_introl eq_refl)) as Ha. unfold weight_or_1 in Ha. rewrite Ha.
  apply IH. intros b Hb. apply H. right. exact Hb.
Qed.

Lemma cwv_votes_sum preds ws acc :
  (forall a, In a (map fst preds) -> exists w, lookup a ws = Some w) ->
  qsum (map snd (cwv_votes preds ws acc)) == qsum (map snd acc) + weighted_total preds ws.
Proof.
  unfold weighted_total.
  revert acc. induction preds as [|[a [c conf]] preds IH]; intros acc H; simpl.
  - ring.
  - destruct (H a (or_introl eq_refl)) as [w Hw]. rewrite Hw.
    rewrite IH by (intros b Hb; apply H; right; exact Hb).
    rewrite add_vote_sum. ring.
Qed.

Lemma add_vote_nonneg c v d :
  0 <= v -> Forall (fun kv => 0 <= snd kv) d -> Forall (fun kv => 0 <= snd kv) (add_vote c v d).
Proof.
  intros Hv Hd. induction Hd as [|[c' s] d Hs Hd IH]; simpl.
  - constructor; [simpl; rewrite Qplus_0_l; exact Hv | constructor].
  - destruct (Z.eqb c c'); constructor; simpl in *; auto.
    apply (Qle_trans _ (0 + 0)); [apply Qle_refl|]. apply Qplus_le_compat; assumption.
Qed.

Lemma cwv_votes_nonneg preds ws acc :
  Forall (fun p => 0 <= snd (snd p)) preds -> Forall (fun aw => 0 <= snd aw) ws ->
  Forall (fun kv => 0 <= snd kv) acc -> Forall (fun kv => 0 <= snd kv) (cwv_votes preds ws acc).
Proof.
  intros Hp Hw. revert acc.
  induction Hp as [|[a [c conf]] preds Hc Hp IH]; intros acc Hacc; simpl; auto.
  apply IH, add_vote_nonneg; auto. simpl in Hc.
  assert (Hwa : 0 <= match lookup a ws with Some w => w | None => 1 end).
  { destruct (lookup a ws) as [w|] eqn:E; [|discriminate].
    rewrite Forall_forall in Hw.
    clear -E Hw. induction ws as [|[k v] ws IHws]; simpl in E; [discriminate|].
    destruct (String.eqb a k).
    - inversion E; subst. apply (Hw (k, w)). left; reflexivity.
    - apply IHws; auto. intros x Hx. apply Hw. right; exact Hx. }
  apply Qmult_le_0_compat; assumption.
Qed.

Lemma add_vote_head c v k s d : exists s' d', add_vote c v ((k, s) :: d) = (k, s') :: d'.
Proof. simpl. destruct (Z.eqb c k); eauto. Qed.

Lemma cwv_votes_head preds ws k s d :
  exists s' d', cwv_votes preds ws ((k, s) :: d) = (k, s') :: d'.
Proof.
  revert s d. induction preds as [|[a [c conf]] preds IH]; intros s d;
    cbn [cwv_votes]; eauto.
  destruct (add_vote_head c (match lookup a ws with Some w => w | None => 1 end * conf) k s d)
    as (s' & d' & E).
  rewrite E. apply IH.
Qed.

Lemma qsum_ge_elem (l : list Q) (x : Q) :
  Forall (fun y => 0 <= y) l -> In x l -> x <= qsum l.
Proof.
  intros Hf. induction Hf as [|y l Hy Hf IH]; simpl; [tauto|].
  intros [->|Hin].
  - rewrite <- (Qplus_0_r x) at 1. apply Qplus_le_compat; [apply Qle_refl|].
    clear -Hf. induction Hf; simpl; [apply Qle_refl|].
    apply (Qle_trans _ (0 + 0)); [apply Qle_refl|]. apply Qplus_le_compat; assumption.
  - apply (Qle_trans _ (0 + qsum l)); [rewrite Qplus_0_l; auto|].
    apply Qplus_le_compat; [exact Hy | apply Qle_refl].
Qed.

Lemma zlookup_In k d s : zlookup k d = Some s -> In (k, s) d.
Proof.
  induction d as [|[k' v] d IH]; simpl; [discriminate|].
  destruct (Z.eqb k k') eqn:E; intros H.
  - apply Z.eqb_eq in E. inversion H; subst. left; reflexivity.
  - right. auto.
Qed.

Lemma argmax_from_le best bv d :
  Forall (fun kv => snd kv <= bv) d -> argmax_from best bv d = best.
Proof.
  intros Hf. induction Hf as [|[k v] d Hv Hf IH]; simpl; auto.
  simpl in Hv. apply Qle_bool_iff in Hv. rewrite Hv. exact IH.
Qed.

(** [max(d, key=d.get)] returns the first key whose value is maximal. *)
Lemma argmax_from_spec d : forall pre0 best bv post0,
  Forall (fun kv => snd kv <= bv) (pre0 ++ (best, bv) :: post0) ->
  Forall (fun kv => snd kv < bv) pre0 ->
  exists pre v post,
    pre0 ++ (best, bv) :: post0 ++ d = pre ++ (argmax_from best bv d, v) :: post /\
    Forall (fun kv => snd kv <= v) (pre0 ++ (best, bv) :: post0 ++ d) /\
    Forall (fun kv => snd kv < v) pre.
Proof.
  induction d as [|[k v] d IH]; intros pre0 best bv post0 Hle Hlt; simpl.
  - exists pre0, bv, post0. rewrite app_nil_r. auto.
  - destruct (Qle_bool v bv) eqn:E.
    + apply Qle_bool_iff in E.
      destruct (IH pre0 best bv (post0 ++ [(k, v)])) as (pre & v' & post & H1 & H2 & H3).
      * rewrite app_comm_cons, app_assoc. apply Forall_app. split; [exact Hle|].
        constructor; [exact E | constructor].
      * exact Hlt.
      * exists pre, v', post. rewrite <- app_assoc in H1, H2. simpl in H1, H2. auto.
    + assert (Hgt : bv < v).
      { apply Qnot_le_lt. intros Hc. apply Qle_bool_iff in Hc. congruence. }
      destruct (IH (pre0 ++ (best, bv) :: post0) k v []) as (pre & v' & post & H1 & H2 & H3).
      * apply Forall_app. split; [|constructor; [apply Qle_refl | constructor]].
        refine (Forall_impl _ _ Hle). intros kv Hkv. apply Qlt_le_weak.
        exact (Qle_lt_trans _ _ _ Hkv Hgt).
      * refine (Forall_impl _ _ Hle). intros kv Hkv. exact (Qle_lt_trans _ _ _ Hkv Hgt).
      * exists pre, v', post. rewrite <- app_assoc in H1, H2. simpl in H1, H2. auto.
Qed.

Lemma py_max_key_spec d k :
  py_max_key d = Ok k ->
  exists pre v post, d = pre ++ (k, v) :: post /\
    Forall (fun kv => snd kv <= v) d /\ Forall (fun kv => snd kv < v) pre.
Proof.
  destruct d as [|[k0 v0] d]; simpl; [discriminate|]. intros H; inversion H; subst.
  destruct (argmax_from_spec d [] k0 v0 []) as (pre & v & post & H1 & H2 & H3).
  - constructor; [apply Qle_refl | constructor].
  - constructor.
  - simpl in H1, H2. exists pre, v, post. repeat split; assumption.
Qed.

Lemma qmin_le_1 (x : Q) : x <= 1 -> Qmin x 1 = x.
Proof.
  intros H. unfold Qmin, GenericMinMax.gmin.
  apply Qle_alt in H. destruct (Qcompare x 1) eqn:E; try reflexivity. contradiction.
Qed.

Lemma same_key_set_found (preds : list (agent * prediction)) (ws : list (agent * Q)) :
  same_key_set (map fst preds) (map fst ws) = true ->
  forall a, In a (map fst preds) -> exists w, lookup a ws = Some w.
Proof.
  unfold same_key_set. intros H a Hin. apply andb_true_iff in H as [H _].
  rewrite forallb_forall in H. apply lookup_In_keys, mem_In, H, Hin.
Qed.

Lemma cwv_votes_cons_ne a c conf (rest : list (agent * prediction)) ws :
  exists s d, cwv_votes ((a, (c, conf)) :: rest) ws [] = (c, s) :: d.
Proof. cbn [cwv_votes add_vote]. apply cwv_votes_head. Qed.

Lemma score_div_total_le_1 (vpc : list (label * Q)) (k : label) :
  Forall (fun kv => 0 <= snd kv) vpc -> 0 < qsum (map snd vpc) ->
  (match zlookup k vpc with Some s => s | None => 0 end) / qsum (map snd vpc) <= 1.
Proof.
  intros Hnn Hpos. apply Qle_shift_div_r; [exact Hpos|]. rewrite Qmult_1_l.
  destruct (zlookup k vpc) as [s|] eqn:E.
  - apply qsum_ge_elem.
    + apply Forall_map. exact Hnn.
    + apply (in_map snd _ (k, s)). apply zlookup_In. exact E.
  - apply Qlt_le_weak. exact Hpos.
Qed.

(** C9: for a non-empty vote map whose key set equals the weight map's, with
    nonnegative confidences and weights (Vote.confidence lies in [0, 1] and
    weights in [weight_min, weight_max] in the data model), and a positive
    total weighted score, WeightedVoter.vote and compute_weighted_vote (the
    function ConsensusEngine.predict calls) return the same class and the same
    confidence. *)
Theorem weighted_votes_agree (preds : list (agent * prediction)) (ws : list (agent * Q)) :
  preds <> [] ->
  same_key_set (map fst preds) (map fst ws) = true ->
  Forall (fun p => 0 <= snd (snd p)) preds ->
  Forall (fun aw => 0 <= snd aw) ws ->
  0 < weighted_total preds ws ->
  exists r, vote preds ws = Ok r /\
    compute_weighted_vote preds ws = (vr_predicted_class r, vr_confidence r).
Proof.
  intros Hne Hsk Hconf Hw Htot.
  pose proof (same_key_set_found _ _ Hsk) as Hfound.
  assert (Hsum : qsum (map snd (cwv_votes preds ws [])) == weighted_total preds ws).
  { rewrite cwv_votes_sum by exact Hfound. simpl. ring. }
  assert (Hnn : Forall (fun kv => 0 <= snd kv) (cwv_votes preds ws []))
    by (apply cwv_votes_nonneg; auto).
  assert (Hpos : 0 < qsum (map snd (cwv_votes preds ws []))) by (rewrite Hsum; exact Htot).
  assert (Hle : Qle_bool (qsum (map snd (cwv_votes preds ws []))) 0 = false).
  { destruct (Qle_bool _ 0) eqn:E; [|reflexivity].
    apply Qle_bool_iff in E. exfalso. exact (Qlt_not_le _ _ Hpos E). }
  assert (Hv : exists k s d, cwv_votes preds ws [] = (k, s) :: d).
  { destruct preds as [|[a [c conf]] rest]; [congruence|].
    destruct (cwv_votes_cons_ne a c conf rest ws) as (s & d & E). eauto. }
  destruct Hv as (k0 & s & d & Hv).
  unfold vote, compute_weighted_vote.
  destruct preds as [|p0 rest] eqn:Hp; [congruence|].
  rewrite <- Hp in *. rewrite Hsk. simpl negb. cbv iota.
  rewrite (voter_votes_found _ _ [] Hfound).
  remember (cwv_votes preds ws []) as vpc eqn:Hvpc.
  destruct (py_max_key vpc) as [k|e] eqn:Hk.
  - rewrite Hle. eexists; split; [reflexivity|]. simpl.
    rewrite qmin_le_1; [reflexivity|]. apply score_div_total_le_1; assumption.
  - rewrite Hv in Hk. discriminate.
Qed.

Lemma weighted_votes_agree_witness :
  exists r, vote scenario_c_votes (weights scenario_engine) = Ok r /\
    compute_weighted_vote scenario_c_votes (weights scenario_engine)
    = (vr_predicted_class r, vr_confidence r).
Proof.
  apply weighted_votes_agree.
  - discriminate.
  - vm_compute. reflexivity.
  - repeat constructor; discriminate.
  - repeat constructor; discriminate.
  - vm_compute. reflexivity.
Defined.

(** C5 (counterexample): with all confidences zero, compute_weighted_vote
    (the voting path of ConsensusEngine.predict) returns confidence 0.5, not
    0, and both it and WeightedVoter.vote pick class 1, not the smallest
    label 0. *)
Lemma zero_total_counterexample :
  same_key_set (map fst zero_votes) (map fst unit_weights) = true /\
  weighted_total zero_votes unit_weights == 0 /\
  compute_weighted_vote zero_votes unit_weights = (1%Z, 1 # 2) /\
  exists r, vote zero_votes unit_weights = Ok r /\ vr_predicted_class r = 1%Z.
Proof.
  split; [reflexivity|]. split; [reflexivity|]. split; [vm_compute; reflexivity|].
  eexists; split; [vm_compute; reflexivity | reflexivity].
Qed.

Lemma zero_total_vote_gen (preds : list (agent * prediction)) (a0 : agent) (c0 : label)
  (conf0 : Q) (rest : list (agent * prediction)) (ws : list (agent * Q)) :
  preds = (a0, (c0, conf0)) :: rest ->
  same_key_set (map fst preds) (map fst ws) = true ->
  Forall (fun p => 0 <= snd (snd p)) preds ->
  Forall (fun aw => 0 <= snd aw) ws ->
  weighted_total preds ws == 0 ->
  (exists r, vote preds ws = Ok r /\ vr_predicted_class r = c0 /\ vr_confidence r = 0) /\
  compute_weighted_vote preds ws = (c0, 1 # 2).
Proof.
  intros Hp Hsk Hconf Hw Htot.
  pose proof (same_key_set_found _ _ Hsk) as Hfound.
  assert (Hsum : qsum (map snd (cwv_votes preds ws [])) == 0).
  { rewrite cwv_votes_sum by exact Hfound. simpl. rewrite Htot. reflexivity. }
  assert (Hnn : Forall (fun kv => 0 <= snd kv) (cwv_votes preds ws []))
    by (apply cwv_votes_nonneg; auto).
  assert (Hle : Qle_bool (qsum (map snd (cwv_votes preds ws []))) 0 = true).
  { apply Qle_bool_iff. rewrite Hsum. apply Qle_refl. }
  destruct (cwv_votes_cons_ne a0 c0 conf0 rest ws) as (s & d & Hv). rewrite <- Hp in Hv.
  assert (Hmax : py_max_key (cwv_votes preds ws []) = Ok c0).
  { rewrite Hv. simpl. f_equal. apply argmax_from_le.
    rewrite Hv in Hnn, Hsum. inversion Hnn as [|? ? Hs Hd]; subst.
    apply Forall_forall. intros [k v] Hin. simpl in Hs |- *.
    apply (Qle_trans _ 0); [|exact Hs].
    rewrite <- Hsum. apply qsum_ge_elem; [apply Forall_map; exact Hnn|].
    apply (in_map snd _ (k, v)). right. exact Hin. }
  clear Hp. unfold vote, compute_weighted_vote.
  destruct preds as [|p1 rest1] eqn:Hp1; [discriminate|].
  rewrite <- Hp1 in *. rewrite Hsk. simpl negb. cbv iota.
  rewrite (voter_votes_found _ _ [] Hfound), Hmax, Hle.
  split; [eexists; split; [reflexivity | split; reflexivity] | reflexivity].
Qed.

(** C5 (amended): for a non-empty vote map whose key set equals the weight
    map's, with nonnegative confidences and weights and total weighted score
    0, WeightedVoter.vote returns confidence 0 while compute_weighted_vote (the
    ConsensusEngine.predict path) returns confidence 0.5; both return the class
    of the first vote in the map's iteration order. *)
Theorem zero_total_vote (a0 : agent) (c0 : label) (conf0 : Q)
  (rest : list (agent * prediction)) (ws : list (agent * Q)) :
  same_key_set (map fst ((a0, (c0, conf0)) :: rest)) (map fst ws) = true ->
  Forall (fun p => 0 <= snd (snd p)) ((a0, (c0, conf0)) :: rest) ->
  Forall (fun aw => 0 <= snd aw) ws ->
  weighted_total ((a0, (c0, conf0)) :: rest) ws == 0 ->
  (exists r, vote ((a0, (c0, conf0)) :: rest) ws = Ok r /\
             vr_predicted_class r = c0 /\ vr_confidence r = 0) /\
  compute_weighted_vote ((a0, (c0, conf0)) :: rest) ws = (c0, 1 # 2).
Proof.
  intros Hsk Hconf Hw Htot.
  exact (zero_total_vote_gen _ a0 c0 conf0 rest ws eq_refl Hsk Hconf Hw Htot).
Qed.

Lemma zero_total_vote_witness :
  (exists r, vote zero_votes unit_weights = Ok r /\
             vr_predicted_class r = 1%Z /\ vr_confidence r = 0) /\
  compute_weighted_vote zero_votes unit_weights = (1%Z, 1 # 2).
Proof.
  apply zero_total_vote.
  - reflexivity.
  - repeat constructor; discriminate.
  - repeat constructor; discriminate.
  - reflexivity.
Defined.

(** C6 (counterexample): compute_weighted_vote, the voting function of
    ConsensusEngine.predict, returns (0, 0.5) on an empty vote map instead of
    failing, and accepts a vote map whose key set differs from the weights'
    (the missing agent counts with weight 1.0); an engine with no agents
    predicts without error. *)
Lemma voting_precondition_counterexample :
  compute_weighted_vote [] [] = (0%Z, 1 # 2) /\
  compute_weighted_vote [("a"%string, (1%Z, 1))] [("b"%string, 2)] = (1%Z, 1) /\
  exists r, predict 1 (fun _ => (0%Z, 1)) (fun _ => Ok EmptyString)
              (init_engine default_config []) = Ok r.
Proof.
  split; [reflexivity|]. split; [vm_compute; reflexivity|].
  eexists. reflexivity.
Qed.

(** C6 (amended): WeightedVoter.vote fails with ConsensusError when the vote
    map is empty or its key set differs from the weight map's; compute_weighted_vote
    (the path of ConsensusEngine.predict) checks neither: on an empty map it
    returns (0, 0.5), and on any vote map, agents absent from the weights vote
    with weight 1.0 while the others vote with their weights: adding the
    absent agents to the weight map with weight 1.0 does not change the
    result. *)
Theorem voting_precondition_paths :
  (forall (preds : list (agent * prediction)) (ws : list (agent * Q)),
     preds = [] \/ same_key_set (map fst preds) (map fst ws) = false ->
     vote preds ws = Err ConsensusError) /\
  (forall ws, compute_weighted_vote [] ws = (0%Z, 1 # 2)) /\
  (forall (preds : list (agent * prediction)) (ws : list (agent * Q)) (missing : list agent),
     (forall a, In a missing -> lookup a ws = None) ->
     compute_weighted_vote preds ws
     = compute_weighted_vote preds (ws ++ map (fun a => (a, 1)) missing)).
Proof.
  split; [|split].
  - intros preds ws [->|H]; [reflexivity|].
    unfold vote. destruct preds; [reflexivity|]. rewrite H. reflexivity.
  - intros ws. reflexivity.
  - intros preds ws missing H. unfold compute_weighted_vote.
    rewrite (cwv_votes_ext preds ws (ws ++ map (fun a => (a, 1)) missing) []).
    + reflexivity.
    + intros a _. unfold weight_or_1. rewrite lookup_app.
      destruct (lookup a ws) as [w|] eqn:E; [reflexivity|].
      symmetry. apply weight_const_map_1.
Qed.

Lemma voting_precondition_paths_witness :
  vote [] unit_weights = Err ConsensusError /\
  vote [("a"%string, (1%Z, 1)); ("b"%string, (0%Z, 6 # 10))] [("b"%string, 2)]
  = Err ConsensusError /\
  compute_weighted_vote [("a"%string, (1%Z, 1)); ("b"%string, (0%Z, 6 # 10))]
    [("b"%string, 2)]
  = compute_weighted_vote [("a"%string, (1%Z, 1)); ("b"%string, (0%Z, 6 # 10))]
    ([("b"%string, 2)] ++ map (fun a => (a, 1)) ["a"%string]).
Proof.
  split; [|split].
  - apply (proj1 voting_precondition_paths). left. reflexivity.
  - apply (proj1 voting_precondition_paths). right. reflexivity.
  - apply (proj2 (proj2 voting_precondition_paths)).
    intros a [<-|[]]. reflexivity.
Defined.

(** ** Tie-breaking *)

Lemma py_set_order_binary (l : list label) :
  Forall (fun x => x = 0%Z \/ x = 1%Z) l ->
  py_set_order l = (if existsb (Z.eqb 0) l then [0%Z] else [])
                   ++ (if existsb (Z.eqb 1) l then [1%Z] else []).
Proof.
  induction 1 as [|x l Hx Hl IH]; [reflexivity|].
  unfold py_set_order in *. simpl. rewrite IH.
  destruct Hx as [->| ->]; simpl;
    destruct (existsb (Z.eqb 0) l), (existsb (Z.eqb 1) l); reflexivity.
Qed.

Lemma count_absent (l : list label) (c : label) :
  existsb (Z.eqb c) l = false -> count_occ_label l c = 0%nat.
Proof.
  unfold count_occ_label. induction l as [|x l IH]; simpl; auto.
  destruct (Z.eqb c x); simpl; [discriminate | exact IH].
Qed.

Lemma count_binary (l : list label) :
  Forall (fun x => x = 0%Z \/ x = 1%Z) l ->
  (count_occ_label l 0%Z + count_occ_label l 1%Z = List.length l)%nat.
Proof.
  unfold count_occ_label. induction 1 as [|x l Hx Hl IH]; simpl; auto.
  destruct Hx as [-> | ->]; simpl; lia.
Qed.

(** C4 (counterexample): on an exact tie of weighted scores (0.5 for class 1
    and 0.5 for class 0), WeightedVoter.vote returns class 1, the higher
    label, because class 1 was voted first. *)
Lemma tie_counterexample :
  exists r, vote tie_votes unit_weights = Ok r /\
    vr_votes_per_class r = [(1%Z, 1 # 2); (0%Z, 1 # 2)] /\
    vr_predicted_class r = 1%Z.
Proof. eexists; split; [vm_compute; reflexivity | split; reflexivity]. Qed.

(** C4 (amended): WeightedVoter.vote returns the class that comes first, in
    the order of the classes' first votes, among the classes with maximal
    weighted score (every class before it scores strictly less);
    compute_weighted_vote, on a non-empty vote map, picks its class by the same
    rule over its [weighted_votes] dict; in RecordFeedback's majority
    computation over labels 0 and 1, a tie in vote counts goes to the lower
    label 0. *)
Theorem tie_break_rules :
  (forall (preds : list (agent * prediction)) (ws : list (agent * Q)) (r : VotingResult),
     vote preds ws = Ok r ->
     map fst (vr_votes_per_class r) = first_appearance (map (fun p => fst (snd p)) preds) /\
     exists pre v post,
       vr_votes_per_class r = pre ++ (vr_predicted_class r, v) :: post /\
       Forall (fun kv => snd kv <= v) (vr_votes_per_class r) /\
       Forall (fun kv => snd kv < v) pre) /\
  (forall (preds : list (agent * prediction)) (ws : list (agent * Q)),
     preds <> [] ->
     map fst (cwv_votes preds ws []) = first_appearance (map (fun p => fst (snd p)) preds) /\
     exists pre v post,
       cwv_votes preds ws [] = pre ++ (fst (compute_weighted_vote preds ws), v) :: post /\
       Forall (fun kv => snd kv <= v) (cwv_votes preds ws []) /\
       Forall (fun kv => snd kv < v) pre) /\
  (forall preds : list (agent * prediction),
     preds <> [] ->
     Forall (fun p => fst (snd p) = 0%Z \/ fst (snd p) = 1%Z) preds ->
     count_occ_label (map (fun p => fst (snd p)) preds) 0%Z =
     count_occ_label (map (fun p => fst (snd p)) preds) 1%Z ->
     get_majority_prediction preds = Ok 0%Z).
Proof.
  split.
  - intros preds ws r. unfold vote. destruct preds as [|p0 rest]; [discriminate|].
    destruct (negb _); [discriminate|].
    destruct (voter_votes _ ws []) as [vpc|e] eqn:Ev; [|discriminate].
    destruct (py_max_key vpc) as [k|e] eqn:Ek; [|discriminate].
    intros H; inversion H; subst; clear H; simpl.
    apply voter_votes_cwv in Ev. split.
    + rewrite Ev, cwv_votes_keys. reflexivity.
    + exact (py_max_key_spec _ _ Ek).
  - split.
    { intros preds ws Hne. split; [rewrite cwv_votes_keys; reflexivity|].
      destruct preds as [|[a [c conf]] rest]; [congruence|].
      destruct (cwv_votes_cons_ne a c conf rest ws) as (s0 & d & Hv).
      unfold compute_weighted_vote. cbv zeta.
      match goal with |- context [py_max_key ?x] => destruct (py_max_key x) as [k|e] eqn:Ek end.
      - exact (py_max_key_spec _ _ Ek).
      - unfold prediction, label in *. rewrite Hv in Ek. discriminate. }
    intros preds Hne Hbin Hcount. unfold get_majority_prediction.
    set (classes := map (fun p => fst (snd p)) preds) in *.
    assert (Hbin' : Forall (fun x => x = 0%Z \/ x = 1%Z) classes)
      by (apply Forall_map; exact Hbin).
    assert (Hlen : List.length classes <> 0%nat).
    { unfold classes. rewrite length_map. destruct preds; simpl; [congruence | lia]. }
    pose proof (count_binary _ Hbin') as Hsum.
    rewrite (py_set_order_binary _ Hbin').
    destruct (existsb (Z.eqb 0) classes) eqn:E0;
      [|apply count_absent in E0; lia].
    destruct (existsb (Z.eqb 1) classes) eqn:E1;
      [|apply count_absent in E1; lia].
    simpl. rewrite Hcount.
    assert (Hq : forall q, Qle_bool q q = true) by (intros; apply Qle_bool_iff, Qle_refl).
    rewrite Hq. reflexivity.
Qed.

Lemma tie_break_rules_witness :
  get_majority_prediction tie_votes = Ok 0%Z /\
  (exists r, vote tie_votes unit_weights = Ok r /\
    map fst (vr_votes_per_class r) = first_appearance [1%Z; 0%Z]) /\
  map fst (cwv_votes tie_votes unit_weights []) = first_appearance [1%Z; 0%Z].
Proof.
  split; [|split].
  - apply (proj2 (proj2 tie_break_rules)).
    + discriminate.
    + apply Forall_forall. intros p Hp. destruct Hp as [<-|[<-|[]]]; simpl; auto.
    + reflexivity.
  - eexists. split; [vm_compute; reflexivity|].
    apply (proj1 tie_break_rules tie_votes unit_weights). vm_compute. reflexivity.
  - apply (proj1 (proj2 tie_break_rules) tie_votes unit_weights). discriminate.
Defined.

(** ** Validation failures of RecordFeedback *)

(** C7 (code_bug): on a two-agent engine, RecordFeedback with an empty vote
    map raises ValueError (from [max] over an empty set), not the
    ConsensusError of the validation paths, and with a vote map naming an
    untracked agent after a tracked one it raises KeyError after the tracked
    agent's weight was already changed, so the engine state differs from the
    state before the call. *)
Theorem feedback_validation_failures :
  update_weights_from_feedback 0%Z [] two_agent_engine = (Err ValueError, two_agent_engine) /\
  fst (update_weights_from_feedback 0%Z unknown_agent_votes two_agent_engine) = Err KeyError /\
  weights (snd (update_weights_from_feedback 0%Z unknown_agent_votes two_agent_engine))
    <> weights two_agent_engine.
Proof.
  split; [reflexivity|]. split; [vm_compute; reflexivity|].
  vm_compute. intros H. inversion H.
Qed.

(** ** The ConsensusError import *)

(** C10 (code_bug): exceptions_v2.py binds ConsensusException but no name
    ConsensusError, so [from backend.shared.exceptions_v2 import
    ConsensusError] in voting.py and engine.py fails with ImportError. *)
Theorem consensus_error_unbound :
  from_import exceptions_v2_names "ConsensusError"%string = Err ImportError /\
  from_import exceptions_v2_names "ConsensusException"%string = Ok "ConsensusException"%string.
Proof. split; reflexivity. Qed.

Lemma reset_then_get_weights_witness :
  lookup "b"%string (get_weights (reset_weights c1_state)) = Some 1 /\
  get_prediction_history (reset_weights c1_state) = get_prediction_history c1_state.
Proof.
  split.
  - apply (proj1 (reset_then_get_weights c1_state)). simpl. auto.
  - exact (proj1 (proj2 (proj2 (reset_then_get_weights c1_state)))).
Defined.

(** * Further properties of the voting, utility and reputation code *)

(** ** Lemmas on the majority and the aggregation *)

Lemma insert_sorted_In (x : label) (l : list label) (z : label) :
  In z (insert_sorted x l) <-> z = x \/ In z l.
Proof.
  induction l as [|y l IH]; simpl.
  - split; [intros [H|[]]; left; symmetry; exact H | intros [H|[]]; left; symmetry; exact H].
  - destruct (Z.eqb x y) eqn:E1.
    + apply Z.eqb_eq in E1. subst. split; [tauto|].
      intros [->|H]; [left; reflexivity | exact H].
    + destruct (Z.ltb x y); simpl.
      * split; (intros [H|H]; [left; symmetry; exact H | right; exact H]).
      * rewrite IH. tauto.
Qed.

Lemma py_set_order_In (l : list label) (z : label) : In z (py_set_order l) <-> In z l.
Proof.
  induction l as [|a l IH]; simpl; [tauto|].
  rewrite insert_sorted_In, IH. split; intros [H|H]; auto.
Qed.

Lemma majority_of_classes (classes : list label) (k : label) :
  py_max_key (map (fun c => (c, inject_Z (Z.of_nat (count_occ_label classes c))))
                  (py_set_order classes)) = Ok k ->
  In k classes /\
  forall c, In c classes -> (count_occ_label classes c <= count_occ_label classes k)%nat.
Proof.
  intros H. apply py_max_key_spec in H as (pre & v & post & Hd & Hall & _).
  assert (Hin : In (k, v) (map (fun c => (c, inject_Z (Z.of_nat (count_occ_label classes c))))
                               (py_set_order classes))).
  { rewrite Hd. apply in_or_app. right. left. reflexivity. }
  apply in_map_iff in Hin as (k' & Hk & Hk'). inversion Hk; subst.
  split; [apply py_set_order_In; exact Hk'|].
  intros c Hc. rewrite Forall_forall in Hall.
  assert (Hc' : In (c, inject_Z (Z.of_nat (count_occ_label classes c)))
                   (map (fun c => (c, inject_Z (Z.of_nat (count_occ_label classes c))))
                        (py_set_order classes)))
    by (apply (in_map (fun c => (c, inject_Z (Z.of_nat (count_occ_label classes c))))),
               py_set_order_In; exact Hc).
  specialize (Hall _ Hc'). simpl in Hall. rewrite <- Zle_Qle in Hall. lia.
Qed.

Lemma majority_ok (classes : list label) :
  classes <> [] ->
  exists k, py_max_key (map (fun c => (c, inject_Z (Z.of_nat (count_occ_label classes c))))
                            (py_set_order classes)) = Ok k.
Proof.
  intros Hne. destruct classes as [|c0 cs]; [congruence|].
  assert (Hin : In c0 (py_set_order (c0 :: cs))) by (apply py_set_order_In; left; reflexivity).
  destruct (py_set_order (c0 :: cs)) as [|x xs]; [destruct Hin|].
  simpl. eexists. reflexivity.
Qed.

Lemma py_max_from_spec (b : Q) (l : list Q) :
  b <= py_max_from b l /\ Forall (fun x => x <= py_max_from b l) l /\
  (py_max_from b l = b \/ In (py_max_from b l) l).
Proof.
  revert b. induction l as [|x l IH]; intros b; simpl.
  - split; [apply Qle_refl|]. split; [constructor | left; reflexivity].
  - destruct (Qle_bool x b) eqn:E.
    + apply Qle_bool_iff in E. destruct (IH b) as (H1 & H2 & H3).
      split; [exact H1|]. split; [constructor; [exact (Qle_trans _ _ _ E H1) | exact H2]|].
      destruct H3 as [H3|H3]; [left; exact H3 | right; right; exact H3].
    + assert (Hlt : b < x).
      { apply Qnot_le_lt. intros Hc. apply Qle_bool_iff in Hc. congruence. }
      destruct (IH x) as (H1 & H2 & H3).
      split; [exact (Qle_trans _ _ _ (Qlt_le_weak _ _ Hlt) H1)|].
      split; [constructor; [exact H1 | exact H2]|].
      destruct H3 as [H3|H3]; [right; left; symmetry; exact H3 | right; right; exact H3].
Qed.

Lemma qsum_nonneg (l : list Q) : Forall (fun x => 0 <= x) l -> 0 <= qsum l.
Proof.
  intros Hf. induction Hf as [|x l Hx Hf IH]; simpl; [apply Qle_refl|].
  apply (Qle_trans _ (0 + 0)); [apply Qle_refl|]. apply Qplus_le_compat; assumption.
Qed.

Lemma qsum_le_len_max (l : list Q) (m : Q) :
  Forall (fun x => x <= m) l -> qsum l <= inject_Z (Z.of_nat (List.length l)) * m.
Proof.
  intros Hf. induction Hf as [|x l Hx Hf IH]; simpl.
  - apply Qle_lteq. right. ring.
  - rewrite Zpos_P_of_succ_nat, <- Z.add_1_r, inject_Z_plus.
    apply (Qle_trans _ (m + inject_Z (Z.of_nat (List.length l)) * m)).
    + apply Qplus_le_compat; assumption.
    + apply Qle_lteq. right. simpl. ring.
Qed.

Lemma first_appearance_In (l acc : list label) (k : label) :
  In k (fold_left (fun acc c => if existsb (Z.eqb c) acc then acc else acc ++ [c]) l acc) ->
  In k acc \/ In k l.
Proof.
  revert acc. induction l as [|x l IH]; intros acc H; simpl in *; [left; exact H|].
  destruct (IH _ H) as [H1|H1]; [|right; right; exact H1].
  destruct (existsb (Z.eqb x) acc); [left; exact H1|].
  apply in_app_or in H1 as [H1|[H1|[]]]; [left; exact H1 | right; left; exact H1].
Qed.

Lemma lookup_nonneg (ws : list (agent * Q)) (a : agent) (w : Q) :
  Forall (fun aw => 0 <= snd aw) ws -> lookup a ws = Some w -> 0 <= w.
Proof.
  intros Hf. induction Hf as [|[k v] ws Hv Hf IH]; simpl; [discriminate|].
  destruct (String.eqb a k); [intros H; inversion H; subst; exact Hv | exact IH].
Qed.

Lemma vote_ok_inv (preds : list (agent * prediction)) (ws : list (agent * Q)) r :
  vote preds ws = Ok r ->
  preds <> [] /\ same_key_set (map fst preds) (map fst ws) = true /\
  py_max_key (cwv_votes preds ws []) = Ok (vr_predicted_class r) /\
  vr_votes_per_class r = cwv_votes preds ws [] /\
  vr_weight_distribution r = ws /\
  vr_confidence r =
    (if Qle_bool (qsum (map snd (cwv_votes preds ws []))) 0 then 0
     else (match zlookup (vr_predicted_class r) (cwv_votes preds ws []) with
           | Some s => s | None => 0 end) / qsum (map snd (cwv_votes preds ws []))).
Proof.
  intros H. destruct preds as [|p rest]; [discriminate|].
  unfold vote in H. cbv iota in H.
  destruct (same_key_set (map fst (p :: rest)) (map fst ws)) eqn:Hsk; [|discriminate].
  simpl negb in H. cbv iota in H.
  rewrite (voter_votes_found _ _ [] (same_key_set_found _ _ Hsk)) in H.
  destruct (py_max_key (cwv_votes (p :: rest) ws [])) as [k|e] eqn:Hk; [|discriminate].
  inversion H; subst; clear H. simpl.
  split; [discriminate|]. auto.
Qed.

Lemma cwv_range (preds : list (agent * prediction)) (ws : list (agent * Q)) :
  Forall (fun p => 0 <= snd (snd p)) preds -> Forall (fun aw => 0 <= snd aw) ws ->
  (0 <= snd (compute_weighted_vote preds ws) /\ snd (compute_weighted_vote preds ws) <= 1) /\
  (preds = [] -> compute_weighted_vote preds ws = (0%Z, 1 # 2)) /\
  (preds <> [] ->
   In (fst (compute_weighted_vote preds ws)) (map (fun p => fst (snd p)) preds)).
Proof.
  intros Hp Hw.
  assert (Hnn : Forall (fun kv => 0 <= snd kv) (cwv_votes preds ws []))
    by (apply cwv_votes_nonneg; auto).
  unfold compute_weighted_vote.
  destruct (py_max_key (cwv_votes preds ws [])) as [k|e] eqn:Hk.
  - assert (Hcl : preds <> [] -> In k (map (fun p => fst (snd p)) preds)).
    { intros _. apply py_max_key_spec in Hk as (pre & v & post & Hd & _).
      assert (Hin : In k (map fst (cwv_votes preds ws []))).
      { rewrite Hd, map_app. apply in_or_app. right. left. reflexivity. }
      rewrite cwv_votes_keys in Hin. apply first_appearance_In in Hin as [[]|Hin]. exact Hin. }
    assert (Hx : 0 <= (if Qle_bool (qsum (map snd (cwv_votes preds ws []))) 0 then 1 # 2
                       else (match zlookup k (cwv_votes preds ws []) with
                             | Some s => s | None => 0 end) / qsum (map snd (cwv_votes preds ws [])))).
    { destruct (Qle_bool _ 0) eqn:Et; [discriminate|].
      assert (Hpos : 0 < qsum (map snd (cwv_votes preds ws []))).
      { apply Qnot_le_lt. intros Hc. apply Qle_bool_iff in Hc. congruence. }
      apply Qle_shift_div_l; [exact Hpos|]. rewrite Qmult_0_l.
      destruct (zlookup k _) as [s|] eqn:Ez; [|apply Qle_refl].
      apply zlookup_In in Ez. rewrite Forall_forall in Hnn. exact (Hnn _ Ez). }
    simpl. split; [split|split].
    + apply Q.min_glb; [exact Hx | discriminate].
    + apply Q.le_min_r.
    + intros ->. simpl in Hk. discriminate.
    + exact Hcl.
  - assert (He : cwv_votes preds ws [] = []).
    { destruct (cwv_votes preds ws []) as [|[k v] d]; [reflexivity | discriminate]. }
    simpl. split; [split; discriminate|]. split; [reflexivity|].
    intros Hne. destruct preds as [|[a [c conf]] rest]; [congruence|].
    destruct (cwv_votes_cons_ne a c conf rest ws) as (s & d & E).
    pose proof (eq_trans (eq_sym He) E) as Hc. discriminate Hc.
Qed.

(** ** WeightedVoter.get_majority_prediction and _get_majority_prediction *)

(** X1: WeightedVoter.get_majority_prediction raises ConsensusError exactly
    on an empty vote map; otherwise it returns one of the predicted classes,
    and no class is predicted more often than it. *)
Theorem voter_majority_most_frequent (preds : list (agent * prediction)) :
  match voter_get_majority_prediction preds with
  | Err e => e = ConsensusError /\ preds = []
  | Ok k =>
      In k (map (fun p => fst (snd p)) preds) /\
      forall c, In c (map (fun p => fst (snd p)) preds) ->
        (count_occ_label (map (fun p => fst (snd p)) preds) c
         <= count_occ_label (map (fun p => fst (snd p)) preds) k)%nat
  end.
Proof.
  unfold voter_get_majority_prediction.
  destruct (map (fun p => fst (snd p)) preds) as [|c0 cs] eqn:Hc.
  - split; [reflexivity|]. exact (map_eq_nil _ _ Hc).
  - destruct (majority_ok (c0 :: cs) ltac:(discriminate)) as [k Hk].
    rewrite Hk. exact (majority_of_classes _ _ Hk).
Qed.

(** X2: the engine's _get_majority_prediction raises ValueError (max of an
    empty set) exactly on an empty vote map; otherwise it returns one of the
    predicted classes, and no class is predicted more often than it. *)
Theorem engine_majority_most_frequent (preds : list (agent * prediction)) :
  match get_majority_prediction preds with
  | Err e => e = ValueError /\ preds = []
  | Ok k =>
      In k (map (fun p => fst (snd p)) preds) /\
      forall c, In c (map (fun p => fst (snd p)) preds) ->
        (count_occ_label (map (fun p => fst (snd p)) preds) c
         <= count_occ_label (map (fun p => fst (snd p)) preds) k)%nat
  end.
Proof.
  unfold get_majority_prediction.
  destruct (map (fun p => fst (snd p)) preds) as [|c0 cs] eqn:Hc.
  - split; [reflexivity|]. exact (map_eq_nil _ _ Hc).
  - destruct (majority_ok (c0 :: cs) ltac:(discriminate)) as [k Hk].
    rewrite Hk. exact (majority_of_classes _ _ Hk).
Qed.

(** ** WeightedVoter.calculate_consensus_confidence *)

(** X3: for nonnegative class scores, calculate_consensus_confidence returns
    exactly (0, False) when the scores sum to zero (in particular for an empty
    map); otherwise the confidence lies between 1/(number of classes) and 1,
    and the flag is set exactly when the confidence reaches the threshold. *)
Theorem consensus_confidence_bounds (vpc : list (label * Q)) (th : Q) :
  Forall (fun kv => 0 <= snd kv) vpc ->
  (qsum (map snd vpc) == 0 -> calculate_consensus_confidence vpc th = (0, false)) /\
  (~ qsum (map snd vpc) == 0 ->
   let '(conf, meets) := calculate_consensus_confidence vpc th in
   1 / inject_Z (Z.of_nat (List.length vpc)) <= conf /\ conf <= 1 /\
   (meets = true <-> th <= conf)).
Proof.
  intros Hnn. destruct vpc as [|[k0 v0] rest].
  - split; [reflexivity|]. intros H. exfalso. apply H. reflexivity.
  - unfold calculate_consensus_confidence.
    destruct (Qeq_bool (qsum (map snd ((k0, v0) :: rest))) 0) eqn:E.
    + split; [reflexivity|]. intros H. exfalso. apply H. apply Qeq_bool_eq. exact E.
    + split; [intros H; apply Qeq_bool_iff in H; congruence|]. intros _.
      apply Qeq_bool_neq in E.
      set (T := qsum (map snd ((k0, v0) :: rest))) in *.
      assert (Hnn' : Forall (fun x => 0 <= x) (map snd ((k0, v0) :: rest)))
        by (apply Forall_map; exact Hnn).
      assert (HT : 0 < T).
      { destruct (Qle_lt_or_eq _ _ (qsum_nonneg _ Hnn')) as [H|H]; [exact H|].
        exfalso. apply E. symmetry. exact H. }
      destruct (py_max_from_spec v0 (map snd rest)) as (H1 & H2 & H3).
      set (M := py_max_from v0 (map snd rest)) in *.
      assert (HMall : Forall (fun x => x <= M) (map snd ((k0, v0) :: rest)))
        by (constructor; [exact H1 | exact H2]).
      assert (HMin : In M (map snd ((k0, v0) :: rest))).
      { destruct H3 as [H3|H3]; [left; symmetry; exact H3 | right; exact H3]. }
      assert (HN : 0 < inject_Z (Z.of_nat (List.length ((k0, v0) :: rest)))).
      { unfold Qlt. simpl. lia. }
      split; [|split].
      * apply Qle_shift_div_l; [exact HT|].
        setoid_replace (1 / inject_Z (Z.of_nat (List.length ((k0, v0) :: rest))) * T)
          with (T / inject_Z (Z.of_nat (List.length ((k0, v0) :: rest))))
          by (field; apply Qnot_eq_sym, Qlt_not_eq; exact HN).
        apply Qle_shift_div_r; [exact HN|]. rewrite Qmult_comm.
        pose proof (qsum_le_len_max _ _ HMall) as HL. rewrite length_map in HL. exact HL.
      * apply Qle_shift_div_r; [exact HT|]. rewrite Qmult_1_l.
        apply qsum_ge_elem; [exact Hnn' | exact HMin].
      * apply Qle_bool_iff.
Qed.

(** ** WeightedVoter.vote *)

(** X4: when WeightedVoter.vote returns, votes_per_class has one entry per
    predicted class in the order of the first vote for it, its scores sum to
    the total weighted score, the predicted class carries a maximal score, and
    weight_distribution is the weight map passed in. *)
Theorem vote_result_shape (preds : list (agent * prediction)) (ws : list (agent * Q))
  (r : VotingResult) :
  vote preds ws = Ok r ->
  map fst (vr_votes_per_class r) = first_appearance (map (fun p => fst (snd p)) preds) /\
  qsum (map snd (vr_votes_per_class r)) == weighted_total preds ws /\
  (exists s, In (vr_predicted_class r, s) (vr_votes_per_class r) /\
             Forall (fun kv => snd kv <= s) (vr_votes_per_class r)) /\
  vr_weight_distribution r = ws.
Proof.
  intros H. apply vote_ok_inv in H as (_ & Hsk & Hk & Hv & Hw & _).
  rewrite Hv, Hw. split; [|split; [|split]].
  - rewrite cwv_votes_keys. reflexivity.
  - rewrite cwv_votes_sum by exact (same_key_set_found _ _ Hsk). simpl. ring.
  - apply py_max_key_spec in Hk as (pre & v & post & Hd & Hall & _).
    exists v. split; [rewrite Hd; apply in_or_app; right; left; reflexivity | exact Hall].
  - reflexivity.
Qed.

(** X5: with nonnegative confidences and weights, the confidence returned by
    WeightedVoter.vote lies in [0, 1]. *)
Theorem vote_confidence_range (preds : list (agent * prediction)) (ws : list (agent * Q))
  (r : VotingResult) :
  Forall (fun p => 0 <= snd (snd p)) preds -> Forall (fun aw => 0 <= snd aw) ws ->
  vote preds ws = Ok r ->
  0 <= vr_confidence r /\ vr_confidence r <= 1.
Proof.
  intros Hp Hw H. apply vote_ok_inv in H as (_ & _ & _ & _ & _ & Hc). rewrite Hc.
  assert (Hnn : Forall (fun kv => 0 <= snd kv) (cwv_votes preds ws []))
    by (apply cwv_votes_nonneg; auto).
  destruct (Qle_bool (qsum (map snd (cwv_votes preds ws []))) 0) eqn:Et;
    [split; discriminate|].
  assert (Hpos : 0 < qsum (map snd (cwv_votes preds ws []))).
  { apply Qnot_le_lt. intros Hc'. apply Qle_bool_iff in Hc'. congruence. }
  split.
  - apply Qle_shift_div_l; [exact Hpos|]. rewrite Qmult_0_l.
    destruct (zlookup _ _) as [s|] eqn:Ez; [|apply Qle_refl].
    apply zlookup_In in Ez. rewrite Forall_forall in Hnn. exact (Hnn _ Ez).
  - apply score_div_total_le_1; assumption.
Qed.

(** ** compute_weighted_vote *)

(** X6: with nonnegative confidences and weights, compute_weighted_vote
    returns a confidence in [0, 1]; it returns (0, 0.5) for an empty vote map
    and otherwise one of the predicted classes. *)
Theorem compute_weighted_vote_range (preds : list (agent * prediction))
  (ws : list (agent * Q)) :
  Forall (fun p => 0 <= snd (snd p)) preds -> Forall (fun aw => 0 <= snd aw) ws ->
  let '(final_prediction, conf) := compute_weighted_vote preds ws in
  (0 <= conf /\ conf <= 1) /\
  (preds = [] -> final_prediction = 0%Z /\ conf = 1 # 2) /\
  (preds <> [] -> In final_prediction (map (fun p => fst (snd p)) preds)).
Proof.
  intros Hp Hw. destruct (cwv_range preds ws Hp Hw) as (H1 & H2 & H3).
  destruct (compute_weighted_vote preds ws) as [k conf]. simpl in *.
  split; [exact H1|]. split; [|exact H3].
  intros He. specialize (H2 He). inversion H2. split; reflexivity.
Qed.

(** ** ConsensusEngine.predict *)






(** ** compute_consensus_confidence (utils.py) *)

(** X8: with nonnegative confidences, compute_consensus_confidence lies in
    [0, 1], and it is 0.5 when no agent predicted the final class. *)
Theorem consensus_confidence_range (preds : list (agent * prediction))
  (final_prediction : label) :
  Forall (fun p => 0 <= snd (snd p)) preds ->
  (0 <= compute_consensus_confidence preds final_prediction /\
   compute_consensus_confidence preds final_prediction <= 1) /\
  (~ In final_prediction (map (fun p => fst (snd p)) preds) ->
   compute_consensus_confidence preds final_prediction = 1 # 2).
Proof.
  intros Hp. unfold compute_consensus_confidence.
  assert (Hm : Forall (fun x => 0 <= x)
                 (map (fun p => snd (snd p))
                      (filter (fun p => Z.eqb (fst (snd p)) final_prediction) preds))).
  { apply Forall_map, Forall_forall. intros p Hin. apply filter_In in Hin as [Hin _].
    rewrite Forall_forall in Hp. exact (Hp p Hin). }
  destruct (map (fun p => snd (snd p))
                (filter (fun p => Z.eqb (fst (snd p)) final_prediction) preds))
    as [|x xs] eqn:HM.
  - split; [split; discriminate | reflexivity].
  - split.
    + split; [|apply Q.le_min_r].
      apply Q.min_glb; [|discriminate].
      apply (Qle_trans _ (0 + 0)); [apply Qle_refl|].
      apply Qplus_le_compat; apply Qmult_le_0_compat; try discriminate.
      * apply Qmult_le_0_compat; [apply qsum_nonneg; exact Hm|].
        apply Qinv_le_0_compat. unfold Qle. simpl. lia.
      * apply Qmult_le_0_compat; [unfold Qle; simpl; lia|].
        apply Qinv_le_0_compat. unfold Qle. simpl. lia.
    + intros Hn. exfalso.
      assert (Hx : In x (map (fun p => snd (snd p))
                          (filter (fun p => Z.eqb (fst (snd p)) final_prediction) preds)))
        by (rewrite HM; left; reflexivity).
      apply in_map_iff in Hx as (p & _ & Hin). apply filter_In in Hin as [Hin Heq].
      apply Z.eqb_eq in Heq. apply Hn. rewrite <- Heq.
      exact (in_map (fun p : agent * prediction => fst (snd p)) _ _ Hin).
Qed.

(** ** Lemmas on the stable sort *)

Lemma filter_none {A} (f : A -> bool) (l : list A) :
  (forall z, In z l -> f z = false) -> filter f l = [].
Proof.
  induction l as [|x l IH]; intros H; simpl; [reflexivity|].
  rewrite (H x (or_introl eq_refl)). apply IH. intros z Hz. apply H. right. exact Hz.
Qed.

Section StableSort.

Variable before : agent * Q -> agent * Q -> bool.

Lemma insert_by_perm (x : agent * Q) (l : list (agent * Q)) :
  Permutation (x :: l) (insert_by before x l).
Proof.
  induction l as [|y l IH]; simpl; [reflexivity|].
  destruct (before x y); [reflexivity|].
  eapply perm_trans; [apply perm_swap|]. apply perm_skip. exact IH.
Qed.

Lemma sort_by_perm_acc (l acc : list (agent * Q)) :
  Permutation (acc ++ l) (fold_left (fun acc x => insert_by before x acc) l acc).
Proof.
  revert acc. induction l as [|x l IH]; intros acc; simpl.
  - rewrite app_nil_r. reflexivity.
  - eapply perm_trans; [|apply IH].
    eapply perm_trans; [apply Permutation_sym, Permutation_middle|].
    apply (Permutation_app_tail l (insert_by_perm x acc)).
Qed.

Variable R : agent * Q -> agent * Q -> Prop.
Hypothesis R_trans : forall x y z, R x y -> R y z -> R x z.
Hypothesis before_true : forall x y, before x y = true -> R x y.
Hypothesis before_false : forall x y, before x y = false -> R y x.

Lemma insert_by_sorted (x : agent * Q) (l : list (agent * Q)) :
  StronglySorted R l -> StronglySorted R (insert_by before x l).
Proof.
  induction l as [|y l IH]; intros Hs; simpl.
  - repeat constructor.
  - inversion Hs as [|? ? Hl Hy]; subst.
    destruct (before x y) eqn:E.
    + constructor; [exact Hs|]. constructor; [apply before_true; exact E|].
      apply Forall_forall. intros z Hz. apply R_trans with y; [apply before_true; exact E|].
      rewrite Forall_forall in Hy. auto.
    + constructor; [apply IH; exact Hl|]. apply Forall_forall. intros z Hz.
      apply (Permutation_in _ (Permutation_sym (insert_by_perm x l))) in Hz.
      destruct Hz as [<-|Hz]; [apply before_false; exact E|].
      rewrite Forall_forall in Hy. auto.
Qed.

Lemma sort_by_sorted_acc (l acc : list (agent * Q)) :
  StronglySorted R acc ->
  StronglySorted R (fold_left (fun acc x => insert_by before x acc) l acc).
Proof.
  revert acc. induction l as [|x l IH]; intros acc Hs; simpl; [exact Hs|].
  apply IH, insert_by_sorted, Hs.
Qed.

Variable eqk : agent * Q -> bool.
Hypothesis eqk_sep : forall x y z, eqk x = true -> before x y = true -> (y = z \/ R y z) ->
  eqk z = false.

Lemma insert_by_filter_other (x : agent * Q) (l : list (agent * Q)) :
  eqk x = false -> filter eqk (insert_by before x l) = filter eqk l.
Proof.
  intros Hx. induction l as [|y l IH]; simpl; [rewrite Hx; reflexivity|].
  destruct (before x y); simpl; [rewrite Hx; reflexivity|].
  destruct (eqk y); [f_equal|]; exact IH.
Qed.

Lemma insert_by_filter_same (x : agent * Q) (l : list (agent * Q)) :
  StronglySorted R l -> eqk x = true -> filter eqk (insert_by before x l) = filter eqk l ++ [x].
Proof.
  intros Hs Hx. induction l as [|y l IH]; simpl; [rewrite Hx; reflexivity|].
  inversion Hs as [|? ? Hl Hy]; subst.
  destruct (before x y) eqn:E.
  - assert (Hnone : filter eqk (y :: l) = []).
    { apply filter_none. intros z Hz. apply (eqk_sep x y z Hx E).
      destruct Hz as [<-|Hz]; [left; reflexivity|].
      right. rewrite Forall_forall in Hy. exact (Hy z Hz). }
    simpl. rewrite Hx. simpl in Hnone. rewrite Hnone. reflexivity.
  - simpl. rewrite (IH Hl). destruct (eqk y); reflexivity.
Qed.

Lemma sort_by_filter_acc (l acc : list (agent * Q)) :
  StronglySorted R acc ->
  filter eqk (fold_left (fun acc x => insert_by before x acc) l acc) =
  filter eqk acc ++ filter eqk l.
Proof.
  revert acc. induction l as [|x l IH]; intros acc Hs; simpl; [rewrite app_nil_r; reflexivity|].
  rewrite (IH _ (insert_by_sorted x acc Hs)).
  destruct (eqk x) eqn:Hx.
  - rewrite (insert_by_filter_same x acc Hs Hx), <- app_assoc. reflexivity.
  - rewrite (insert_by_filter_other x acc Hx). reflexivity.
Qed.

End StableSort.

Lemma sorted_desc_perm (l : list (agent * Q)) : Permutation l (sorted_desc l).
Proof. exact (sort_by_perm_acc _ l []). Qed.

Lemma sorted_asc_perm (l : list (agent * Q)) : Permutation l (sorted_asc l).
Proof. exact (sort_by_perm_acc _ l []). Qed.

Lemma sorted_desc_sorted (l : list (agent * Q)) :
  StronglySorted (fun x y => snd y <= snd x) (sorted_desc l).
Proof.
  apply sort_by_sorted_acc; [| | |constructor].
  - intros x y z H1 H2. exact (Qle_trans _ _ _ H2 H1).
  - intros x y H. apply negb_true_iff in H. apply Qlt_le_weak, Qnot_le_lt.
    intros Hc. apply Qle_bool_iff in Hc. congruence.
  - intros x y H. apply negb_false_iff, Qle_bool_iff in H. exact H.
Qed.

Lemma sorted_asc_sorted (l : list (agent * Q)) :
  StronglySorted (fun x y => snd x <= snd y) (sorted_asc l).
Proof.
  apply sort_by_sorted_acc; [| | |constructor].
  - intros x y z H1 H2. exact (Qle_trans _ _ _ H1 H2).
  - intros x y H. apply negb_true_iff in H. apply Qlt_le_weak, Qnot_le_lt.
    intros Hc. apply Qle_bool_iff in Hc. congruence.
  - intros x y H. apply negb_false_iff, Qle_bool_iff in H. exact H.
Qed.

Lemma sorted_desc_stable (l : list (agent * Q)) (v : Q) :
  filter (fun p => Qeq_bool (snd p) v) (sorted_desc l) = filter (fun p => Qeq_bool (snd p) v) l.
Proof.
  apply (sort_by_filter_acc _ (fun x y => snd y <= snd x)); [| | | |constructor].
  - intros x y z H1 H2. exact (Qle_trans _ _ _ H2 H1).
  - intros x y H. apply negb_true_iff in H. apply Qlt_le_weak, Qnot_le_lt.
    intros Hc. apply Qle_bool_iff in Hc. congruence.
  - intros x y H. apply negb_false_iff, Qle_bool_iff in H. exact H.
  - intros x y z Hx Hb Hz. apply Qeq_bool_eq in Hx. apply negb_true_iff in Hb.
    apply Bool.not_true_iff_false. intros Hz'. apply Qeq_bool_eq in Hz'.
    assert (Hle : snd z <= snd y) by (destruct Hz as [<-|Hz]; [apply Qle_refl | exact Hz]).
    assert (Hxy : snd x <= snd y) by (rewrite Hx, <- Hz'; exact Hle).
    apply Qle_bool_iff in Hxy. congruence.
Qed.

Lemma sorted_asc_stable (l : list (agent * Q)) (v : Q) :
  filter (fun p => Qeq_bool (snd p) v) (sorted_asc l) = filter (fun p => Qeq_bool (snd p) v) l.
Proof.
  apply (sort_by_filter_acc _ (fun x y => snd x <= snd y)); [| | | |constructor].
  - intros x y z H1 H2. exact (Qle_trans _ _ _ H1 H2).
  - intros x y H. apply negb_true_iff in H. apply Qlt_le_weak, Qnot_le_lt.
    intros Hc. apply Qle_bool_iff in Hc. congruence.
  - intros x y H. apply negb_false_iff, Qle_bool_iff in H. exact H.
  - intros x y z Hx Hb Hz. apply Qeq_bool_eq in Hx. apply negb_true_iff in Hb.
    apply Bool.not_true_iff_false. intros Hz'. apply Qeq_bool_eq in Hz'.
    assert (Hle : snd y <= snd z) by (destruct Hz as [<-|Hz]; [apply Qle_refl | exact Hz]).
    assert (Hxy : snd y <= snd x) by (rewrite Hx, <- Hz'; exact Hle).
    apply Qle_bool_iff in Hxy. congruence.
Qed.

Lemma ssorted_app_l {A} (R : A -> A -> Prop) (a b : list A) :
  StronglySorted R (a ++ b) -> StronglySorted R a.
Proof.
  induction a as [|x a IH]; simpl; intros H; [constructor|].
  inversion H as [|? ? Hs Hf]; subst. constructor; [apply IH; exact Hs|].
  rewrite Forall_forall in Hf |- *. intros y Hy. apply Hf, in_or_app. left. exact Hy.
Qed.

Lemma ssorted_app_between {A} (R : A -> A -> Prop) (a b : list A) :
  StronglySorted R (a ++ b) -> forall x y, In x a -> In y b -> R x y.
Proof.
  induction a as [|z a IH]; simpl; intros H x y Hx Hy; [destruct Hx|].
  inversion H as [|? ? Hs Hf]; subst. destruct Hx as [<-|Hx].
  - rewrite Forall_forall in Hf. apply Hf, in_or_app. right. exact Hy.
  - exact (IH Hs x y Hx Hy).
Qed.

Lemma py_slice_to_firstn {A} (n : Z) (l : list A) :
  py_slice_to n l =
  firstn (if Z.leb 0 n then Z.to_nat n else Z.to_nat (Z.of_nat (List.length l) + n)) l.
Proof. unfold py_slice_to. destruct (Z.leb 0 n); reflexivity. Qed.

Lemma slice_length (n : Z) (len : nat) :
  Nat.min (if Z.leb 0 n then Z.to_nat n else Z.to_nat (Z.of_nat len + n)) len =
  (if Z.leb 0 n then Nat.min (Z.to_nat n) len else Z.to_nat (Z.of_nat len + n)).
Proof.
  destruct (Z.leb 0 n) eqn:E; [reflexivity|]. apply Z.leb_gt in E. lia.
Qed.

(** ** get_top_agents and get_bottom_agents (utils.py) *)

(** X9: get_top_agents(weights, n) returns the names of a part of the weight
    map, in order of descending weight, of length min(n, len) for n >= 0 and
    len + n (at least 0) for negative n, and no agent it leaves out has a
    larger weight than one it returns; agents of equal weight keep the order
    of the weight map (so on a tie the earlier agent is returned). *)
Theorem top_agents_spec (ws : list (agent * Q)) (n : Z) :
  exists top rest,
    Permutation ws (top ++ rest) /\ get_top_agents ws n = map fst top /\
    StronglySorted (fun x y => snd y <= snd x) top /\
    (forall x y, In x top -> In y rest -> snd y <= snd x) /\
    (forall v, filter (fun p => Qeq_bool (snd p) v) (top ++ rest) =
               filter (fun p => Qeq_bool (snd p) v) ws) /\
    List.length top = (if Z.leb 0 n then Nat.min (Z.to_nat n) (List.length ws)
                       else Z.to_nat (Z.of_nat (List.length ws) + n)).
Proof.
  set (k := if Z.leb 0 n then Z.to_nat n
            else Z.to_nat (Z.of_nat (List.length (sorted_desc ws)) + n)).
  exists (firstn k (sorted_desc ws)), (skipn k (sorted_desc ws)).
  pose proof (sorted_desc_sorted ws) as Hs. rewrite <- (firstn_skipn k) in Hs.
  pose proof (Permutation_length (sorted_desc_perm ws)) as Hlen.
  split; [rewrite firstn_skipn; apply sorted_desc_perm|].
  split; [unfold get_top_agents; rewrite py_slice_to_firstn; reflexivity|].
  split; [exact (ssorted_app_l _ _ _ Hs)|].
  split; [intros x y Hx Hy; exact (ssorted_app_between _ _ _ Hs x y Hx Hy)|].
  split; [intros v; rewrite firstn_skipn; apply sorted_desc_stable|].
  rewrite length_firstn. unfold k. rewrite <- Hlen. apply slice_length.
Qed.

(** X10: get_bottom_agents(weights, n) returns the names of a part of the
    weight map, in order of ascending weight, of length min(n, len) for
    n >= 0 and len + n (at least 0) for negative n, and no agent it leaves out
    has a smaller weight than one it returns; agents of equal weight keep the
    order of the weight map. *)
Theorem bottom_agents_spec (ws : list (agent * Q)) (n : Z) :
  exists bottom rest,
    Permutation ws (bottom ++ rest) /\ get_bottom_agents ws n = map fst bottom /\
    StronglySorted (fun x y => snd x <= snd y) bottom /\
    (forall x y, In x bottom -> In y rest -> snd x <= snd y) /\
    (forall v, filter (fun p => Qeq_bool (snd p) v) (bottom ++ rest) =
               filter (fun p => Qeq_bool (snd p) v) ws) /\
    List.length bottom = (if Z.leb 0 n then Nat.min (Z.to_nat n) (List.length ws)
                          else Z.to_nat (Z.of_nat (List.length ws) + n)).
Proof.
  set (k := if Z.leb 0 n then Z.to_nat n
            else Z.to_nat (Z.of_nat (List.length (sorted_asc ws)) + n)).
  exists (firstn k (sorted_asc ws)), (skipn k (sorted_asc ws)).
  pose proof (sorted_asc_sorted ws) as Hs. rewrite <- (firstn_skipn k) in Hs.
  pose proof (Permutation_length (sorted_asc_perm ws)) as Hlen.
  split; [rewrite firstn_skipn; apply sorted_asc_perm|].
  split; [unfold get_bottom_agents; rewrite py_slice_to_firstn; reflexivity|].
  split; [exact (ssorted_app_l _ _ _ Hs)|].
  split; [intros x y Hx Hy; exact (ssorted_app_between _ _ _ Hs x y Hx Hy)|].
  split; [intros v; rewrite firstn_skipn; apply sorted_asc_stable|].
  rewrite length_firstn. unfold k. rewrite <- Hlen. apply slice_length.
Qed.

(** ** ReputationManager.rank_agents_by_accuracy and rank_agents_by_weight *)

(** X11: rank_agents_by_weight and rank_agents_by_accuracy return every
    (name, value) pair of the reputations exactly once, in order of
    non-increasing value, agents of equal value in the order of the
    reputations dict. *)
Theorem rank_agents_sorted (m : ReputationManager) :
  Permutation (map (fun nr => (fst nr, current_weight (snd nr))) (reputations m))
              (rank_agents_by_weight m) /\
  StronglySorted (fun x y => snd y <= snd x) (rank_agents_by_weight m) /\
  (forall v, filter (fun p => Qeq_bool (snd p) v) (rank_agents_by_weight m) =
     filter (fun p => Qeq_bool (snd p) v)
       (map (fun nr => (fst nr, current_weight (snd nr))) (reputations m))) /\
  Permutation (map (fun nr => (fst nr, accuracy (snd nr))) (reputations m))
              (rank_agents_by_accuracy m) /\
  StronglySorted (fun x y => snd y <= snd x) (rank_agents_by_accuracy m) /\
  (forall v, filter (fun p => Qeq_bool (snd p) v) (rank_agents_by_accuracy m) =
     filter (fun p => Qeq_bool (snd p) v)
       (map (fun nr => (fst nr, accuracy (snd nr))) (reputations m))).
Proof.
  unfold rank_agents_by_weight, rank_agents_by_accuracy.
  split; [apply sorted_desc_perm|]. split; [apply sorted_desc_sorted|].
  split; [intros v; apply sorted_desc_stable|].
  split; [apply sorted_desc_perm|]. split; [apply sorted_desc_sorted|].
  intros v; apply sorted_desc_stable.
Qed.

(** ** Lemmas on the engine's history *)

Lemma update_weights_history tl preds st :
  match update_weights_from_feedback tl preds st with
  | (Ok ws, st') =>
      weights st' = ws /\ cfg st' = cfg st /\ agents st' = agents st /\
      exists maj, get_majority_prediction preds = Ok maj /\
        prediction_history st' = prediction_history st ++
          [{| he_true_label := tl; he_majority_class := maj;
              he_predictions := preds; he_weights_after := ws |}]
  | (Err _, st') =>
      prediction_history st' = prediction_history st /\ cfg st' = cfg st /\
      agents st' = agents st
  end.
Proof.
  unfold update_weights_from_feedback.
  destruct (get_majority_prediction preds) as [maj|e]; [|repeat split].
  destruct (feedback_loop (cfg st) maj tl preds (weights st)) as [[e|] ws1];
    [repeat split|].
  destruct (Qeq_bool (qsum (map snd ws1)) 0); [repeat split|].
  simpl. repeat split. exists maj. split; reflexivity.
Qed.

Lemma get_majority_prediction_err (preds : list (agent * prediction)) e :
  get_majority_prediction preds = Err e -> preds = [] /\ e = ValueError.
Proof.
  unfold get_majority_prediction. destruct preds as [|p preds].
  - intros H; inversion H; split; reflexivity.
  - assert (Hin : In (fst (snd p)) (py_set_order (map (fun p => fst (snd p)) (p :: preds))))
      by (apply py_set_order_In; left; reflexivity).
    destruct (py_set_order (map (fun p => fst (snd p)) (p :: preds))); [destruct Hin|].
    discriminate.
Qed.

Lemma feedback_loop_err c maj tl preds ws e ws' :
  feedback_loop c maj tl preds ws = (Some e, ws') -> e = KeyError.
Proof.
  revert ws. induction preds as [|[a [p conf]] preds IH]; intros ws; simpl; [discriminate|].
  destruct (lookup a ws); [apply IH | intros H; inversion H; reflexivity].
Qed.

Lemma feedback_loop_nonempty c maj tl p preds ws ws' :
  feedback_loop c maj tl (p :: preds) ws = (None, ws') -> ws <> [].
Proof. destruct p as [a [q conf]]. intros H ->. discriminate H. Qed.

(** From a state reachable with [0 < weight_min], the weights after the clamp
    step are positive and non-empty: [weight_sum] is never 0. *)
Lemma feedback_sum_nonzero c st tl preds :
  wf_config c -> reachable c st ->
  forall e st', update_weights_from_feedback tl preds st = (Err e, st') ->
  e = ValueError \/ e = KeyError.
Proof.
  intros Hc Hr e st'. destruct (reachable_inv c st Hc Hr) as (Hcfg & _ & Hpos).
  unfold update_weights_from_feedback.
  destruct (get_majority_prediction preds) as [maj|e'] eqn:Em.
  2:{ intros H; inversion H; subst. left. exact (proj2 (get_majority_prediction_err _ _ Em)). }
  pose proof (feedback_loop_keys (cfg st) maj tl preds (weights st)) as Hk.
  pose proof (feedback_loop_pos (cfg st) maj tl preds (weights st)) as Hp.
  destruct (feedback_loop (cfg st) maj tl preds (weights st)) as [[e'|] ws1] eqn:El.
  - intros H; inversion H; subst. right. exact (feedback_loop_err _ _ _ _ _ _ _ El).
  - simpl in Hk, Hp. rewrite Hcfg in Hp. specialize (Hp Hc Hpos).
    destruct preds as [|q preds]; [discriminate Em|].
    pose proof (feedback_loop_nonempty _ _ _ _ _ _ _ El) as Hne.
    assert (HS : 0 < qsum (map snd ws1)).
    { apply qsum_pos; [|apply Forall_map; exact Hp].
      intros Hm. apply map_eq_nil in Hm. subst ws1. simpl in Hk.
      destruct (weights st); [congruence | discriminate Hk]. }
    destruct (Qeq_bool (qsum (map snd ws1)) 0) eqn:Z; [|discriminate].
    apply Qeq_bool_eq in Z. exfalso. rewrite Z in HS. exact (Qlt_irrefl _ HS).
Qed.

Lemma combine_app_long {A B} (l1 : list A) (l2 l3 : list B) :
  (List.length l1 <= List.length l2)%nat -> combine l1 (l2 ++ l3) = combine l1 l2.
Proof.
  revert l2. induction l1 as [|x l1 IH]; intros l2 H; simpl; [reflexivity|].
  destruct l2 as [|y l2]; simpl in H; [lia|]. simpl. f_equal. apply IH. lia.
Qed.

Lemma combine_app_same {A B} (l1 l1' : list A) (l2 l2' : list B) :
  List.length l1 = List.length l2 -> combine (l1 ++ l1') (l2 ++ l2') = combine l1 l2 ++ combine l1' l2'.
Proof.
  revert l2. induction l1 as [|x l1 IH]; intros l2 H; destruct l2 as [|y l2];
    simpl in *; try reflexivity; try lia.
  f_equal. apply IH. lia.
Qed.

Lemma agent_preds_length (a : agent) (hist : list history_entry) :
  (List.length (flat_map (fun h => match lookup a (he_predictions h) with
                                   | Some p => [p] | None => [] end) hist)
   <= List.length hist)%nat.
Proof.
  induction hist as [|h hist IH]; simpl; [lia|].
  destruct (lookup a (he_predictions h)); simpl; lia.
Qed.

(** ** ConsensusEngine.set_weight *)

(** X12: set_weight on an agent the engine does not know raises
    ConsensusError and changes nothing; on a known agent it stores the
    clipped weight for that agent and leaves the other agents' weights, the
    set of weight keys, the agents and the prediction history unchanged. *)
Theorem set_weight_frame (a : agent) (w : Q) (st : engine) :
  match set_weight a w st with
  | (Err e, st') => e = ConsensusError /\ ~ In a (agents st) /\ st' = st
  | (Ok _, st') =>
      In a (agents st) /\ cfg st' = cfg st /\ agents st' = agents st /\
      prediction_history st' = prediction_history st /\
      map fst (weights st') = map fst (weights st) /\
      (forall b, b <> a -> lookup b (weights st') = lookup b (weights st)) /\
      (In a (map fst (weights st)) ->
       lookup a (weights st') = Some (clip w (weight_min (cfg st)) (weight_max (cfg st))))
  end.
Proof.
  unfold set_weight. destruct (mem a (agents st)) eqn:E; simpl.
  - apply mem_In in E. split; [exact E|]. split; [reflexivity|]. split; [reflexivity|].
    split; [reflexivity|]. split; [apply keys_update|]. split.
    + intros b Hb. apply lookup_update_neq. exact Hb.
    + intros Hin. destruct (lookup_In_keys a (weights st) Hin) as [v Hv].
      exact (lookup_update_eq _ _ _ _ Hv).
  - split; [reflexivity|]. split; [|reflexivity].
    intros Hin. apply mem_In in Hin. congruence.
Qed.

(** ** update_weights_from_feedback and the prediction history *)

(** X13: from a state reachable with a configuration satisfying
    [0 < weight_min <= weight_max], a feedback call that returns appends
    exactly one entry to the prediction history, recording the true label,
    the majority class, the vote map and the returned weights, which
    get_weights then returns; a feedback call that raises raises ValueError
    or KeyError and leaves the history as it was. Neither changes the agents
    or the configuration. *)
Theorem feedback_history_append (c : config) (tl : label)
  (preds : list (agent * prediction)) (st : engine) :
  wf_config c -> reachable c st ->
  match update_weights_from_feedback tl preds st with
  | (Ok ws, st') =>
      get_weights st' = ws /\ cfg st' = cfg st /\ agents st' = agents st /\
      exists maj, get_majority_prediction preds = Ok maj /\
        get_prediction_history st' = get_prediction_history st ++
          [{| he_true_label := tl; he_majority_class := maj;
              he_predictions := preds; he_weights_after := ws |}]
  | (Err e, st') =>
      (e = ValueError \/ e = KeyError) /\
      get_prediction_history st' = get_prediction_history st /\ cfg st' = cfg st /\
      agents st' = agents st
  end.
Proof.
  intros Hc Hr. pose proof (update_weights_history tl preds st) as Hh.
  pose proof (feedback_sum_nonzero c st tl preds Hc Hr) as He.
  destruct (update_weights_from_feedback tl preds st) as [[ws|e] st'].
  - exact Hh.
  - split; [exact (He e st' eq_refl) | exact Hh].
Qed.

(** ** get_agent_reputation after feedback *)

Lemma feedback_reputation_counts_ok (tl : label) (preds : list (agent * prediction))
  (st : engine) (ws : list (agent * Q)) (st' : engine) (a : agent) :
  update_weights_from_feedback tl preds st = (Ok ws, st') -> In a (agents st) ->
  exists n c n' c',
    reputation_counts st a = Ok (n, c) /\ reputation_counts st' a = Ok (n', c') /\
    n' = (n + match lookup a preds with Some _ => 1 | None => 0 end)%nat /\
    (n = List.length (prediction_history st) ->
     c' = (c + match lookup a preds with
               | Some p => if Z.eqb (fst p) tl then 1 else 0
               | None => 0 end)%nat).
Proof.
  intros H Ha. pose proof (update_weights_history tl preds st) as Hh. rewrite H in Hh.
  destruct Hh as (_ & _ & Hag & maj & _ & Hhist).
  unfold reputation_counts. rewrite Hag, Hhist.
  assert (Hm : mem a (agents st) = true) by (apply mem_In; exact Ha). rewrite Hm. simpl.
  rewrite flat_map_app, map_app. simpl.
  set (P := flat_map (fun h => match lookup a (he_predictions h) with
                               | Some p => [p] | None => [] end) (prediction_history st)).
  set (L := map he_true_label (prediction_history st)).
  assert (HPL : (List.length P <= List.length L)%nat)
    by (unfold P, L; rewrite length_map; apply agent_preds_length).
  eexists _, _, _, _. split; [reflexivity|]. split; [reflexivity|].
  destruct (lookup a preds) as [p|]; simpl.
  - rewrite ?app_nil_r, length_app. simpl. split; [lia|]. intros Hn.
    assert (HPL' : List.length P = List.length L) by (unfold L; rewrite length_map; exact Hn).
    rewrite (combine_app_same P [p] L [tl] HPL'), filter_app, length_app. simpl.
    unfold prediction, label in *.
    match goal with |- context [if ?b then _ else _] => destruct b end; simpl; lia.
  - rewrite ?app_nil_r. split; [lia|]. intros _.
    rewrite (combine_app_long P L [tl] HPL). lia.
Qed.


(** X14: from a state reachable with a configuration satisfying
    [0 < weight_min <= weight_max], for a known agent: after a feedback call
    that returns, the total_predictions that get_agent_reputation reports
    grows by one if the vote map has an entry for the agent and stays the same
    otherwise, and, when every earlier history entry had a vote of the agent,
    its correct count grows by one exactly when the new vote matches the true
    label; a feedback call that raises (ValueError or KeyError) leaves both
    counts as they were. *)
Theorem feedback_reputation_counts (c0 : config) (tl : label)
  (preds : list (agent * prediction)) (st : engine) (a : agent) :
  wf_config c0 -> reachable c0 st -> In a (agents st) ->
  match update_weights_from_feedback tl preds st with
  | (Ok ws, st') =>
      exists n c n' c',
        reputation_counts st a = Ok (n, c) /\ reputation_counts st' a = Ok (n', c') /\
        n' = (n + match lookup a preds with Some _ => 1 | None => 0 end)%nat /\
        (n = List.length (prediction_history st) ->
         c' = (c + match lookup a preds with
                   | Some p => if Z.eqb (fst p) tl then 1 else 0
                   | None => 0 end)%nat)
  | (Err e, st') =>
      (e = ValueError \/ e = KeyError) /\ reputation_counts st' a = reputation_counts st a
  end.
Proof.
  intros Hc Hr Ha. pose proof (update_weights_history tl preds st) as Hh.
  pose proof (feedback_sum_nonzero c0 st tl preds Hc Hr) as He.
  pose proof (feedback_reputation_counts_ok tl preds st) as Hok.
  destruct (update_weights_from_feedback tl preds st) as [[ws|e] st'].
  - exact (Hok ws st' a eq_refl Ha).
  - split; [exact (He e st' eq_refl)|].
    destruct Hh as (Hhist & _ & Hag). unfold reputation_counts.
    rewrite Hag. unfold get_prediction_history in Hhist. rewrite Hhist. reflexivity.
Qed.

(** ** Lemmas on the ReputationManager *)

Lemma lookup_Some_In {V} (k : string) (d : list (string * V)) (v : V) :
  lookup k d = Some v -> In k (map fst d).
Proof.
  induction d as [|[k' v'] d IH]; simpl; [discriminate|].
  destruct (String.eqb k k') eqn:E; intros H.
  - apply String.eqb_eq in E. left. symmetry. exact E.
  - right. exact (IH H).
Qed.

Lemma lookup_app_new {V} (b k : string) (v : V) (d : list (string * V)) :
  lookup b (d ++ [(k, v)]) =
  match lookup b d with Some x => Some x | None => if String.eqb b k then Some v else None end.
Proof.
  induction d as [|[k' v'] d IH]; simpl; [reflexivity|].
  destruct (String.eqb b k'); [reflexivity | exact IH].
Qed.

Lemma qsum_app (l1 l2 : list Q) : qsum (l1 ++ l2) == qsum l1 + qsum l2.
Proof. induction l1 as [|x l1 IH]; simpl; [ring|]. rewrite IH. ring. Qed.

Lemma records_of_app (name : agent) (rs : list prediction_record) (r : prediction_record) :
  records_of name (rs ++ [r]) =
  records_of name rs ++ (if String.eqb (pr_agent_name r) name then [r] else []).
Proof. unfold records_of. rewrite filter_app. reflexivity. Qed.

Lemma initialize_agent_cases (name : agent) (w : Q) (m : ReputationManager) :
  match initialize_agent name w m with
  | None => lookup name (reputations m) <> None
  | Some m' =>
      lookup name (reputations m) = None /\
      lookup name (reputations m') = Some (new_reputation name w) /\
      (forall b, b <> name -> lookup b (reputations m') = lookup b (reputations m)) /\
      prediction_records m' = prediction_records m
  end.
Proof.
  unfold initialize_agent. destruct (mem name (map fst (reputations m))) eqn:E.
  - cbv iota. apply mem_In, lookup_In_keys in E as [v Hv]. rewrite Hv. discriminate.
  - assert (Hn : lookup name (reputations m) = None).
    { destruct (lookup name (reputations m)) as [v|] eqn:Hv; [|reflexivity].
      apply lookup_Some_In in Hv. apply mem_In in Hv.
      exfalso. apply Bool.diff_true_false. rewrite <- E. symmetry. exact Hv. }
    simpl. split; [exact Hn|]. split; [|split; [|reflexivity]].
    + rewrite lookup_app_new, Hn, String.eqb_refl. reflexivity.
    + intros b Hb. rewrite lookup_app_new.
      destruct (lookup b (reputations m)); [reflexivity|].
      apply String.eqb_neq in Hb. rewrite Hb. reflexivity.
Qed.

Lemma rep_ok_records (name : agent) (rep : AgentReputation) (rs rs' : list prediction_record) :
  records_of name rs' = records_of name rs -> rep_ok name rep rs -> rep_ok name rep rs'.
Proof. unfold rep_ok. intros E. rewrite E. exact (fun H => H). Qed.

Lemma rm_inv_empty : rm_inv empty_manager.
Proof. split; simpl; [intros r []|intros name rep H; discriminate]. Qed.

Lemma rm_inv_initialize (name : agent) (w : Q) (m m' : ReputationManager) :
  rm_inv m -> initialize_agent name w m = Some m' -> rm_inv m'.
Proof.
  intros [Hrec Hrep] E. pose proof (initialize_agent_cases name w m) as Hc. rewrite E in Hc.
  destruct Hc as (Hn & Hnew & Hoth & Hrs). split.
  - intros r Hr. rewrite Hrs in Hr.
    destruct (String.eqb (pr_agent_name r) name) eqn:Ea.
    + apply String.eqb_eq in Ea. rewrite Ea, Hnew. discriminate.
    + apply String.eqb_neq in Ea. rewrite (Hoth _ Ea). exact (Hrec r Hr).
  - intros b rep Hb. rewrite Hrs.
    destruct (String.eqb b name) eqn:Eb.
    + apply String.eqb_eq in Eb. subst b. rewrite Hnew in Hb. inversion Hb; subst rep.
      assert (Hnil : records_of name (prediction_records m) = []).
      { unfold records_of. destruct (filter _ _) as [|r rs] eqn:Ef; [reflexivity|].
        assert (Hr : In r (filter (fun r => String.eqb (pr_agent_name r) name)
                                  (prediction_records m))) by (rewrite Ef; left; reflexivity).
        apply filter_In in Hr as [Hr Ha]. apply String.eqb_eq in Ha.
        exfalso. apply (Hrec r Hr). rewrite Ha. exact Hn. }
      unfold rep_ok. rewrite Hnil. simpl.
      repeat split; try reflexivity. left. reflexivity.
    + apply String.eqb_neq in Eb. rewrite (Hoth _ Eb) in Hb. exact (Hrep b rep Hb).
Qed.

Lemma ensure_agent_cases (name : agent) (m : ReputationManager) :
  rm_inv m -> rm_inv (ensure_agent name m) /\
  (exists rep, lookup name (reputations (ensure_agent name m)) = Some rep /\
    (lookup name (reputations m) = Some rep \/
     (lookup name (reputations m) = None /\ rep = new_reputation name 1))) /\
  (forall b, b <> name ->
     lookup b (reputations (ensure_agent name m)) = lookup b (reputations m)) /\
  prediction_records (ensure_agent name m) = prediction_records m.
Proof.
  intros Hinv. unfold ensure_agent.
  pose proof (initialize_agent_cases name 1 m) as Hc.
  destruct (initialize_agent name 1 m) as [m'|] eqn:E.
  - destruct Hc as (Hn & Hnew & Hoth & Hrs).
    split; [exact (rm_inv_initialize _ _ _ _ Hinv E)|].
    split; [exists (new_reputation name 1); split; [exact Hnew | right; split; [exact Hn | reflexivity]]|].
    split; [exact Hoth | exact Hrs].
  - split; [exact Hinv|].
    split; [destruct (lookup name (reputations m)) as [rep|]; [|congruence];
            exists rep; split; [reflexivity | left; reflexivity]|].
    split; [intros b _; reflexivity | reflexivity].
Qed.

Lemma nat_q_S_nz (n : nat) : ~ nat_q (S n) == 0.
Proof. unfold nat_q, Qeq. simpl. lia. Qed.

Lemma recorded_rep_ok (name : agent) (rep : AgentReputation) (rs : list prediction_record)
  (pc tc : label) (conf : Q) (mc : label) :
  rep_ok name rep rs ->
  rep_ok name (recorded_reputation rep pc tc conf mc)
    (rs ++ [{| pr_agent_name := name; pr_predicted_class := pc; pr_true_class := tc;
               pr_correct := Z.eqb pc tc; pr_confidence := conf;
               pr_majority_class := mc |}]).
Proof.
  intros (Hn & Hmm & Hcb & Hacc & Htot & Hcor & Hconf & Hwh & Hlast).
  unfold rep_ok. rewrite records_of_app. simpl pr_agent_name. rewrite String.eqb_refl.
  unfold recorded_reputation. cbn [rep_agent_name total_predictions correct_predictions
    accuracy current_weight confidence_avg minority_correct majority_correct both_wrong
    weight_history accuracy_history].
  split; [exact Hn|].
  split; [destruct (Z.eqb pc tc), (Z.eqb mc tc); simpl; lia|].
  split; [destruct (Z.eqb pc tc), (Z.eqb mc tc); simpl; lia|].
  split; [reflexivity|].
  split; [rewrite length_app; simpl; lia|].
  split; [rewrite filter_app, length_app; simpl; destruct (Z.eqb pc tc); simpl; lia|].
  split; [|split; [exact Hwh | exact Hlast]].
  rewrite map_app, qsum_app. cbn [map qsum pr_confidence]. rewrite <- Hconf.
  replace (Z.of_nat (S (total_predictions rep)) - 1)%Z
    with (Z.of_nat (total_predictions rep)) by lia.
  fold (nat_q (S (total_predictions rep))). fold (nat_q (total_predictions rep)).
  field. apply nat_q_S_nz.
Qed.

Lemma rm_inv_record (name : agent) (pc tc : label) (conf : Q) (mc : label)
  (m : ReputationManager) :
  rm_inv m -> rm_inv (record_prediction name pc tc conf mc m).
Proof.
  intros Hinv. destruct (ensure_agent_cases name m Hinv)
    as ([Hrec Hrep] & (rep & Hl & _) & _ & _).
  unfold record_prediction. rewrite Hl. cbn [reputations prediction_records].
  set (m1 := ensure_agent name m) in *.
  set (r := {| pr_agent_name := name; pr_predicted_class := pc; pr_true_class := tc;
               pr_correct := Z.eqb pc tc; pr_confidence := conf; pr_majority_class := mc |}).
  unfold rm_inv. cbn [reputations prediction_records]. split.
  - intros r' Hr'. apply in_app_or in Hr' as [Hr'|[<-|[]]].
    + destruct (String.eqb (pr_agent_name r') name) eqn:Ea.
      * apply String.eqb_eq in Ea. rewrite Ea, (lookup_update_eq _ _ _ _ Hl). discriminate.
      * apply String.eqb_neq in Ea. rewrite lookup_update_neq by exact Ea. exact (Hrec r' Hr').
    + simpl. rewrite (lookup_update_eq _ _ _ _ Hl). discriminate.
  - intros b x Hb. destruct (String.eqb b name) eqn:Eb.
    + apply String.eqb_eq in Eb. subst b. rewrite (lookup_update_eq _ _ _ _ Hl) in Hb.
      inversion Hb; subst x. apply recorded_rep_ok, Hrep, Hl.
    + apply String.eqb_neq in Eb. rewrite lookup_update_neq in Hb by exact Eb.
      apply (rep_ok_records _ _ (prediction_records m1)); [|exact (Hrep b x Hb)].
      rewrite records_of_app. simpl. apply String.eqb_neq in Eb.
      rewrite String.eqb_sym, Eb, app_nil_r. reflexivity.
Qed.

Lemma rm_inv_update_weight (name : agent) (w : Q) (m m' : ReputationManager) :
  rm_inv m -> update_weight name w m = Some m' -> rm_inv m'.
Proof.
  intros [Hrec Hrep] E. unfold update_weight in E.
  destruct (lookup name (reputations m)) as [rep|] eqn:Hl; [|discriminate].
  inversion E; subst m'; clear E. split; cbn [reputations prediction_records].
  - intros r Hr. destruct (String.eqb (pr_agent_name r) name) eqn:Ea.
    + apply String.eqb_eq in Ea. rewrite Ea, (lookup_update_eq _ _ _ _ Hl). discriminate.
    + apply String.eqb_neq in Ea. rewrite lookup_update_neq by exact Ea. exact (Hrec r Hr).
  - intros b x Hb. destruct (String.eqb b name) eqn:Eb.
    + apply String.eqb_eq in Eb. subst b. rewrite (lookup_update_eq _ _ _ _ Hl) in Hb.
      inversion Hb; subst x.
      destruct (Hrep name rep Hl) as (Hn & Hmm & Hcb & Hacc & Htot & Hcor & Hconf & Hwh & _).
      unfold rep_ok; cbn [rep_agent_name total_predictions correct_predictions
        accuracy current_weight confidence_avg minority_correct majority_correct both_wrong
        weight_history accuracy_history].
      repeat (split; [assumption|]).
      split; [rewrite !length_app, Hwh; reflexivity|].
      right. exists (weight_history rep). reflexivity.
    + apply String.eqb_neq in Eb. rewrite lookup_update_neq in Hb by exact Eb.
      exact (Hrep b x Hb).
Qed.

Lemma rm_reachable_inv (m : ReputationManager) : rm_reachable m -> rm_inv m.
Proof.
  intros Hr. induction Hr as [|m o Hr IH]; [exact rm_inv_empty|].
  destruct o as [n w|n p t c mc|n w|]; simpl.
  - destruct (initialize_agent n w m) as [m'|] eqn:E; [exact (rm_inv_initialize _ _ _ _ IH E) | exact IH].
  - apply rm_inv_record, IH.
  - destruct (update_weight n w m) as [m'|] eqn:E; [exact (rm_inv_update_weight _ _ _ _ IH E) | exact IH].
  - exact rm_inv_empty.
Qed.

Lemma nat_q_frac (a b : nat) :
  (a <= b)%nat -> 0 <= nat_q a / nat_q b /\ nat_q a / nat_q b <= 1.
Proof.
  intros Hab. destruct b as [|b].
  - assert (a = 0)%nat by lia. subst a. split; discriminate.
  - assert (Hb : 0 < nat_q (S b)) by (unfold nat_q, Qlt; simpl; lia).
    split.
    + apply Qle_shift_div_l; [exact Hb|]. rewrite Qmult_0_l. unfold nat_q, Qle. simpl. lia.
    + apply Qle_shift_div_r; [exact Hb|]. rewrite Qmult_1_l.
      unfold nat_q. rewrite <- Zle_Qle. lia.
Qed.

(** ** ReputationManager: the counters of an agent *)

(** X15: in every state a ReputationManager reaches through its public
    methods, each agent's reputation carries the agent's name,
    majority_correct + minority_correct = correct_predictions,
    correct_predictions + both_wrong <= total_predictions, and accuracy is
    correct_predictions / total_predictions (0.0 before any prediction). *)
Theorem reputation_counters_consistent (m : ReputationManager) (name : agent)
  (rep : AgentReputation) :
  rm_reachable m -> lookup name (reputations m) = Some rep ->
  rep_agent_name rep = name /\
  (majority_correct rep + minority_correct rep = correct_predictions rep)%nat /\
  (correct_predictions rep + both_wrong rep <= total_predictions rep)%nat /\
  accuracy rep == (if Nat.eqb (total_predictions rep) 0 then 0
                   else nat_q (correct_predictions rep) / nat_q (total_predictions rep)).
Proof.
  intros Hr Hl. destruct (rm_reachable_inv m Hr) as [_ Hrep].
  destruct (Hrep name rep Hl) as (H1 & H2 & H3 & H4 & _). auto.
Qed.

(** X16: in every reachable state, an agent's total_predictions and
    correct_predictions count the prediction records of the agent and those
    marked correct, and confidence_avg * total_predictions is the sum of the
    confidences of its records (the running mean is exact). *)
Theorem reputation_matches_records (m : ReputationManager) (name : agent)
  (rep : AgentReputation) :
  rm_reachable m -> lookup name (reputations m) = Some rep ->
  total_predictions rep = List.length (records_of name (prediction_records m)) /\
  correct_predictions rep =
    List.length (filter pr_correct (records_of name (prediction_records m))) /\
  confidence_avg rep * nat_q (total_predictions rep)
    == qsum (map pr_confidence (records_of name (prediction_records m))).
Proof.
  intros Hr Hl. destruct (rm_reachable_inv m Hr) as [_ Hrep].
  destruct (Hrep name rep Hl) as (_ & _ & _ & _ & H5 & H6 & H7 & _). auto.
Qed.

(** X17: in every reachable state, an agent's weight_history and
    accuracy_history have the same length, and a non-empty weight_history
    ends with the agent's current_weight. *)
Theorem weight_history_consistent (m : ReputationManager) (name : agent)
  (rep : AgentReputation) :
  rm_reachable m -> lookup name (reputations m) = Some rep ->
  List.length (weight_history rep) = List.length (accuracy_history rep) /\
  (weight_history rep = [] \/ exists pre, weight_history rep = pre ++ [current_weight rep]).
Proof.
  intros Hr Hl. destruct (rm_reachable_inv m Hr) as [_ Hrep].
  destruct (Hrep name rep Hl) as (_ & _ & _ & _ & _ & _ & _ & H8 & H9). auto.
Qed.

(** X18: in every reachable state, get_agent_stats reports a
    win_vs_majority_rate and an agreement_with_majority in [0, 1]. *)
Theorem agent_stats_range (m : ReputationManager) (name : agent) (s : AgentStats) :
  rm_reachable m -> get_agent_stats name m = Some s ->
  (0 <= stats_win_vs_majority_rate s /\ stats_win_vs_majority_rate s <= 1) /\
  (0 <= stats_agreement_with_majority s /\ stats_agreement_with_majority s <= 1).
Proof.
  intros Hr Hs. destruct (rm_reachable_inv m Hr) as [_ Hrep].
  unfold get_agent_stats in Hs.
  destruct (lookup name (reputations m)) as [rep|] eqn:Hl; [|discriminate].
  destruct (Hrep name rep Hl) as (_ & Hmm & Hcb & _).
  inversion Hs; subst s; clear Hs. cbn [stats_win_vs_majority_rate stats_agreement_with_majority].
  split.
  - destruct (Nat.ltb 0 _); [apply nat_q_frac; lia | split; discriminate].
  - destruct (Nat.ltb 0 _); [apply nat_q_frac; lia | split; discriminate].
Qed.

(** ** ReputationManager.initialize_agent and record_prediction *)

(** X19: initialize_agent raises exactly for an agent already present;
    otherwise it adds the agent with zero counters and the given weight and
    changes no other agent and no prediction record. *)
Theorem initialize_agent_spec (name : agent) (w : Q) (m : ReputationManager) :
  match initialize_agent name w m with
  | None => lookup name (reputations m) <> None
  | Some m' =>
      lookup name (reputations m) = None /\
      lookup name (reputations m') = Some (new_reputation name w) /\
      (forall b, b <> name -> lookup b (reputations m') = lookup b (reputations m)) /\
      prediction_records m' = prediction_records m
  end.
Proof. exact (initialize_agent_cases name w m). Qed.

(** X20: record_prediction adds one prediction record and increments the
    agent's total_predictions, first registering an unknown agent with weight
    1.0; the agent's current weight and every other agent's reputation are
    unchanged. *)
Theorem record_prediction_effect (name : agent) (pc tc : label) (conf : Q) (mc : label)
  (m : ReputationManager) :
  exists rep',
    lookup name (reputations (record_prediction name pc tc conf mc m)) = Some rep' /\
    total_predictions rep' =
      S (match lookup name (reputations m) with Some r => total_predictions r | None => 0 end) /\
    current_weight rep' =
      (match lookup name (reputations m) with Some r => current_weight r | None => 1 end) /\
    (forall b, b <> name ->
       lookup b (reputations (record_prediction name pc tc conf mc m)) =
       lookup b (reputations m)) /\
    prediction_records (record_prediction name pc tc conf mc m) =
      prediction_records m ++
      [{| pr_agent_name := name; pr_predicted_class := pc; pr_true_class := tc;
          pr_correct := Z.eqb pc tc; pr_confidence := conf; pr_majority_class := mc |}].
Proof.
  unfold record_prediction, ensure_agent.
  pose proof (initialize_agent_cases name 1 m) as Hc.
  destruct (initialize_agent name 1 m) as [m'|] eqn:E.
  - destruct Hc as (Hn & Hnew & Hoth & Hrs). rewrite Hnew, Hn. cbn [reputations prediction_records].
    eexists. split; [exact (lookup_update_eq _ _ _ _ Hnew)|].
    split; [reflexivity|]. split; [reflexivity|]. split; [|rewrite Hrs; reflexivity].
    intros b Hb. rewrite lookup_update_neq by exact Hb. exact (Hoth b Hb).
  - destruct (lookup name (reputations m)) as [r|] eqn:Hl; [|congruence].
    cbn [reputations prediction_records].
    eexists. split; [exact (lookup_update_eq _ _ _ _ Hl)|].
    split; [reflexivity|]. split; [reflexivity|]. split; [|reflexivity].
    intros b Hb. apply lookup_update_neq. exact Hb.
Qed.

(** ** ReputationManager.update_weight *)

(** X21: update_weight raises exactly for an unknown agent; for a known agent
    it sets current_weight, appends the new weight to weight_history and the
    agent's accuracy to accuracy_history, and leaves the agent's counters,
    every other agent and the prediction records unchanged. *)
Theorem update_weight_spec (name : agent) (w : Q) (m : ReputationManager) :
  match update_weight name w m with
  | None => lookup name (reputations m) = None
  | Some m' =>
      exists rep rep',
        lookup name (reputations m) = Some rep /\ lookup name (reputations m') = Some rep' /\
        current_weight rep' = w /\
        weight_history rep' = weight_history rep ++ [w] /\
        accuracy_history rep' = accuracy_history rep ++ [accuracy rep] /\
        total_predictions rep' = total_predictions rep /\
        correct_predictions rep' = correct_predictions rep /\
        accuracy rep' = accuracy rep /\
        (forall b, b <> name -> lookup b (reputations m') = lookup b (reputations m)) /\
        prediction_records m' = prediction_records m
  end.
Proof.
  unfold update_weight. destruct (lookup name (reputations m)) as [rep|] eqn:Hl; [|reflexivity].
  cbn [reputations prediction_records].
  eexists rep, _. split; [reflexivity|]. split; [exact (lookup_update_eq _ _ _ _ Hl)|].
  cbn [current_weight weight_history accuracy_history total_predictions
       correct_predictions accuracy].
  repeat (split; [reflexivity|]). split; [|reflexivity].
  intros b Hb. apply lookup_update_neq. exact Hb.
Qed.

(** ** Instances of the extra properties *)

Lemma sample_manager_reachable : rm_reachable sample_manager.
Proof. unfold sample_manager. repeat apply rm_reach_step. apply rm_reach_init. Qed.

Lemma consensus_confidence_bounds_witness :
  calculate_consensus_confidence [(0%Z, 0); (1%Z, 0)] (1 # 2) = (0, false) /\
  let '(conf, meets) := calculate_consensus_confidence [(0%Z, 3 # 10); (1%Z, 7 # 10)] (1 # 2) in
  1 / inject_Z (Z.of_nat (List.length [(0%Z, 3 # 10); (1%Z, 7 # 10)])) <= conf /\ conf <= 1 /\
  (meets = true <-> 1 # 2 <= conf).
Proof.
  split.
  - refine (proj1 (consensus_confidence_bounds [(0%Z, 0); (1%Z, 0)] (1 # 2) _) _).
    + repeat constructor; apply Qle_bool_iff; reflexivity.
    + reflexivity.
  - refine (proj2 (consensus_confidence_bounds [(0%Z, 3 # 10); (1%Z, 7 # 10)] (1 # 2) _) _).
    + repeat constructor; apply Qle_bool_iff; reflexivity.
    + intros H. vm_compute in H. discriminate H.
Defined.

Lemma vote_result_shape_witness :
  exists r, vote scenario_c_votes (weights scenario_engine) = Ok r /\
  map fst (vr_votes_per_class r) =
    first_appearance (map (fun p => fst (snd p)) scenario_c_votes) /\
  qsum (map snd (vr_votes_per_class r)) == weighted_total scenario_c_votes (weights scenario_engine) /\
  (exists s, In (vr_predicted_class r, s) (vr_votes_per_class r) /\
             Forall (fun kv => snd kv <= s) (vr_votes_per_class r)) /\
  vr_weight_distribution r = weights scenario_engine.
Proof.
  eexists. split; [reflexivity|].
  apply (vote_result_shape scenario_c_votes (weights scenario_engine)). vm_compute. reflexivity.
Defined.

Lemma vote_confidence_range_witness :
  exists r, vote scenario_c_votes (weights scenario_engine) = Ok r /\
  0 <= vr_confidence r /\ vr_confidence r <= 1.
Proof.
  eexists. split; [reflexivity|].
  apply (vote_confidence_range scenario_c_votes (weights scenario_engine)).
  - repeat constructor; apply Qle_bool_iff; reflexivity.
  - repeat constructor; apply Qle_bool_iff; reflexivity.
  - vm_compute. reflexivity.
Defined.

Lemma compute_weighted_vote_range_witness :
  let '(final_prediction, conf) := compute_weighted_vote scenario_c_votes (weights scenario_engine) in
  (0 <= conf /\ conf <= 1) /\
  (scenario_c_votes = [] -> final_prediction = 0%Z /\ conf = 1 # 2) /\
  (scenario_c_votes <> [] -> In final_prediction (map (fun p => fst (snd p)) scenario_c_votes)).
Proof.
  apply (compute_weighted_vote_range scenario_c_votes (weights scenario_engine)).
  - repeat constructor; apply Qle_bool_iff; reflexivity.
  - repeat constructor; apply Qle_bool_iff; reflexivity.
Defined.



Lemma consensus_confidence_range_witness :
  (0 <= compute_consensus_confidence scenario_c_votes 1%Z /\
   compute_consensus_confidence scenario_c_votes 1%Z <= 1) /\
  (~ In 1%Z (map (fun p => fst (snd p)) scenario_c_votes) ->
   compute_consensus_confidence scenario_c_votes 1%Z = 1 # 2).
Proof.
  apply (consensus_confidence_range scenario_c_votes 1%Z).
  repeat constructor; apply Qle_bool_iff; reflexivity.
Defined.

Lemma feedback_reputation_counts_witness :
  exists ws st',
    update_weights_from_feedback 0%Z split_votes two_agent_engine = (Ok ws, st') /\
    exists n c n' c',
      reputation_counts two_agent_engine "a"%string = Ok (n, c) /\
      reputation_counts st' "a"%string = Ok (n', c') /\
      n' = (n + match lookup "a"%string split_votes with Some _ => 1 | None => 0 end)%nat /\
      (n = List.length (prediction_history two_agent_engine) ->
       c' = (c + match lookup "a"%string split_votes with
                 | Some p => if Z.eqb (fst p) 0%Z then 1 else 0
                 | None => 0 end)%nat).
Proof.
  pose proof (feedback_reputation_counts default_config 0%Z split_votes two_agent_engine
                "a"%string default_config_wf (reach_init _ _) (or_introl eq_refl)) as H.
  destruct (update_weights_from_feedback 0%Z split_votes two_agent_engine)
    as [[ws|e] st'] eqn:E.
  - exists ws, st'. split; [reflexivity | exact H].
  - vm_compute in E. discriminate E.
Defined.

Lemma feedback_history_append_witness :
  match update_weights_from_feedback 0%Z split_votes two_agent_engine with
  | (Ok ws, st') =>
      get_weights st' = ws /\ cfg st' = cfg two_agent_engine /\
      agents st' = agents two_agent_engine /\
      exists maj, get_majority_prediction split_votes = Ok maj /\
        get_prediction_history st' = get_prediction_history two_agent_engine ++
          [{| he_true_label := 0%Z; he_majority_class := maj;
              he_predictions := split_votes; he_weights_after := ws |}]
  | (Err e, st') =>
      (e = ValueError \/ e = KeyError) /\
      get_prediction_history st' = get_prediction_history two_agent_engine /\
      cfg st' = cfg two_agent_engine /\ agents st' = agents two_agent_engine
  end.
Proof.
  apply (feedback_history_append default_config 0%Z split_votes two_agent_engine).
  - apply default_config_wf.
  - apply reach_init.
Defined.

Lemma reputation_counters_consistent_witness :
  exists rep, lookup "a"%string (reputations sample_manager) = Some rep /\
  rep_agent_name rep = "a"%string /\
  (majority_correct rep + minority_correct rep = correct_predictions rep)%nat /\
  (correct_predictions rep + both_wrong rep <= total_predictions rep)%nat /\
  accuracy rep == (if Nat.eqb (total_predictions rep) 0 then 0
                   else nat_q (correct_predictions rep) / nat_q (total_predictions rep)).
Proof.
  eexists. split; [reflexivity|].
  apply (reputation_counters_consistent sample_manager "a"%string).
  - apply sample_manager_reachable.
  - reflexivity.
Defined.

Lemma reputation_matches_records_witness :
  exists rep, lookup "a"%string (reputations sample_manager) = Some rep /\
  total_predictions rep = List.length (records_of "a"%string (prediction_records sample_manager)) /\
  correct_predictions rep =
    List.length (filter pr_correct (records_of "a"%string (prediction_records sample_manager))) /\
  confidence_avg rep * nat_q (total_predictions rep)
    == qsum (map pr_confidence (records_of "a"%string (prediction_records sample_manager))).
Proof.
  eexists. split; [reflexivity|].
  apply (reputation_matches_records sample_manager "a"%string).
  - apply sample_manager_reachable.
  - reflexivity.
Defined.

Lemma weight_history_consistent_witness :
  exists rep, lookup "a"%string (reputations sample_manager) = Some rep /\
  List.length (weight_history rep) = List.length (accuracy_history rep) /\
  (weight_history rep = [] \/ exists pre, weight_history rep = pre ++ [current_weight rep]).
Proof.
  eexists. split; [reflexivity|].
  apply (weight_history_consistent sample_manager "a"%string).
  - apply sample_manager_reachable.
  - reflexivity.
Defined.

Lemma agent_stats_range_witness :
  exists s, get_agent_stats "a"%string sample_manager = Some s /\
  (0 <= stats_win_vs_majority_rate s /\ stats_win_vs_majority_rate s <= 1) /\
  (0 <= stats_agreement_with_majority s /\ stats_agreement_with_majority s <= 1).
Proof.
  eexists. split; [reflexivity|].
  apply (agent_stats_range sample_manager "a"%string).
  - apply sample_manager_reachable.
  - reflexivity.
Defined.
